(** * OPFace: mint authorization and provenance recording

    A shallow embedding of [contract/src/contracts/OPFace.ts], the OP_NET
    contract that sells at most 100 tokens for a fixed payment to a fixed
    treasury address and remembers, for every token, who minted it and in
    which block.

    Layout of the development:
    - machine integers and [SafeMath];
    - reverts and the contract monad (storage threaded through, a throw
      keeps the storage as it was when the throw happened);
    - the transaction environment ([Blockchain.tx], [Blockchain.block]);
    - the inherited OP721 ledger, which is not part of the repository;
    - the contract [OPFace] itself, method by method;
    - the platform: atomic revert, call sequences, the deployed state;
    - the pure parts of the web client that talk to the contract;
    - the theorems. *)

From Stdlib Require Import ZArith String List Lia Ascii.
From stdpp Require Import gmap strings list fin_maps pretty.
From Equations Require Import Equations.

Open Scope Z_scope.

(** ** Machine integers *)

(** [u64] and [u256] values are integers in [0, 2^64) and [0, 2^256). *)
Module u256.

Definition modulus : Z := 2 ^ 256.
Definition Zero : Z := 0.
Definition One : Z := 1.

(** [u256.add] wraps around. *)
Definition add (a b : Z) : Z := (a + b) mod modulus.

(** Zero extension of a narrower unsigned integer keeps its value. *)
Definition fromU32 (v : Z) : Z := v.
Definition fromU64 (v : Z) : Z := v.

End u256.

(** ** Reverts and the contract monad *)

(** [throw new Revert(message)]: the only way a method fails. *)
Inductive Revert : Type :=
| mkRevert (message : string).

Definition message (e : Revert) : string :=
  match e with mkRevert m => m end.

Inductive Result (A : Type) : Type :=
| Ok (a : A)
| Throw (e : Revert).

Arguments Ok {A} a.
Arguments Throw {A} e.

Module Contract.

(** A computation over a storage type [S].  On [Throw] the second
    component is the storage as the throwing statement found it, so
    that "nothing was written before the throw" is a statement one can
    prove or refute, not one that holds by construction. *)
Definition M (S A : Type) : Type := S -> Result A * S.

Definition ret {S A} (a : A) : M S A := fun s => (Ok a, s).

Definition bind {S A B} (m : M S A) (k : A -> M S B) : M S B :=
  fun s =>
    match m s with
    | (Ok a, s') => k a s'
    | (Throw e, s') => (Throw e, s')
    end.

Definition throw {S A} (e : Revert) : M S A := fun s => (Throw e, s).

Definition gets {S A} (f : S -> A) : M S A := fun s => (Ok (f s), s).

Definition modify {S} (f : S -> S) : M S unit := fun s => (Ok tt, f s).

End Contract.

Import Contract.

Declare Scope contract_scope.
Delimit Scope contract_scope with contract.
Notation "x <- m ;; k" := (bind m (fun x => k))
  (at level 100, m at next level, right associativity) : contract_scope.
Notation "m ;;; k" := (bind m (fun _ => k))
  (at level 100, right associativity) : contract_scope.

Module SafeMath.

Definition overflow : Revert := mkRevert "SafeMath: addition overflow".

(** Modelled from the spec: [SafeMath.add] of the runtime library, the
    trapping addition the ledger uses (never a silent wrap-around): it
    reverts when the wrapped sum is below the first operand. *)
Definition add {S} (a b : Z) : M S Z :=
  let c := u256.add a b in
  if c <? a then throw overflow else ret c.

End SafeMath.

(** ** The transaction environment *)

(** An [Address] is 32 bytes; it is represented by the 256-bit number
    those bytes spell. *)
Abbreviation Address := Z (only parsing).

Module AddressOps.

Definition zero : Address := 0.

End AddressOps.

(** One output of the submitting transaction.  [to] is the decoded
    bech32 address, [None] for an output that has none ([null]). *)
Record TransactionOutput : Type := mkOutput {
  to : option string;
  value : Z (* u64 *)
}.

(** What [Blockchain] exposes during one call. *)
Record Blockchain : Type := mkBlockchain {
  tx_sender : Address;
  tx_outputs : list TransactionOutput;
  block_number : Z (* u64 *)
}.

(** ** Return payloads *)

(** A [BytesWriter] is kept as the sequence of typed writes made to it. *)
Inductive Written : Type :=
| WU256 (v : Z)
| WU32 (v : Z)
| WBytes (bytes : string).

Definition BytesWriter : Type := list Written.

(** ** Storage *)

Record OP721InitParameters : Type := mkInitParameters {
  name : string;
  symbol : string;
  baseURI : string;
  maxSupply : Z;
  collectionBanner : string;
  collectionIcon : string;
  collectionWebsite : string;
  collectionDescription : string
}.

Inductive Event : Type :=
| Transfer (from : Address) (recipient : Address) (tokenId : Z).

(** Everything the contract instance keeps: the cells of the inherited
    ledger, the events emitted so far, and the two maps [OPFace] adds.
    A [StoredMapU256] reads as zero where nothing was stored. *)
Record Storage : Type := mkStorage {
  collection : option OP721InitParameters;
  _totalSupply : Z;
  _nextTokenId : Z;
  ownerOfMap : gmap Z Address;
  tokenURIMap : gmap Z string;
  events : list Event;
  _minterOf : gmap Z Z;
  _mintedAt : gmap Z Z
}.

Definition with_collection (p : OP721InitParameters) (s : Storage) : Storage :=
  mkStorage (Some p) (_totalSupply s) (_nextTokenId s) (ownerOfMap s)
            (tokenURIMap s) (events s) (_minterOf s) (_mintedAt s).

Definition with_totalSupply (v : Z) (s : Storage) : Storage :=
  mkStorage (collection s) v (_nextTokenId s) (ownerOfMap s)
            (tokenURIMap s) (events s) (_minterOf s) (_mintedAt s).

Definition with_nextTokenId (v : Z) (s : Storage) : Storage :=
  mkStorage (collection s) (_totalSupply s) v (ownerOfMap s)
            (tokenURIMap s) (events s) (_minterOf s) (_mintedAt s).

Definition with_owner (tokenId : Z) (a : Address) (s : Storage) : Storage :=
  mkStorage (collection s) (_totalSupply s) (_nextTokenId s)
            (<[tokenId := a]> (ownerOfMap s))
            (tokenURIMap s) (events s) (_minterOf s) (_mintedAt s).

Definition with_tokenURI (tokenId : Z) (uri : string) (s : Storage) : Storage :=
  mkStorage (collection s) (_totalSupply s) (_nextTokenId s) (ownerOfMap s)
            (<[tokenId := uri]> (tokenURIMap s))
            (events s) (_minterOf s) (_mintedAt s).

Definition with_event (e : Event) (s : Storage) : Storage :=
  mkStorage (collection s) (_totalSupply s) (_nextTokenId s) (ownerOfMap s)
            (tokenURIMap s) (events s ++ [e]) (_minterOf s) (_mintedAt s).

(** [StoredMapU256.get] and [StoredMapU256.set] of the runtime library:
    a persistent map from [u256] keys to [u256] values. *)
Module StoredMapU256.

Definition get (m : gmap Z Z) (key : Z) : Z := default u256.Zero (m !! key).

Definition set (m : gmap Z Z) (key v : Z) : gmap Z Z := <[key := v]> m.

End StoredMapU256.

Definition with_minterOf (tokenId v : Z) (s : Storage) : Storage :=
  mkStorage (collection s) (_totalSupply s) (_nextTokenId s) (ownerOfMap s)
            (tokenURIMap s) (events s)
            (StoredMapU256.set (_minterOf s) tokenId v) (_mintedAt s).

Definition with_mintedAt (tokenId v : Z) (s : Storage) : Storage :=
  mkStorage (collection s) (_totalSupply s) (_nextTokenId s) (ownerOfMap s)
            (tokenURIMap s) (events s) (_minterOf s)
            (StoredMapU256.set (_mintedAt s) tokenId v).

(** Storage before deployment: every cell reads as zero. *)
Definition fresh : Storage :=
  mkStorage None 0 0 ∅ ∅ [] ∅ ∅.

(** ** The inherited OP721 ledger *)

Module OP721.

Local Open Scope contract_scope.

(** Modelled from the spec: the deployment initializer
    [instantiate(name, symbol, baseURI, maxSupply, ...)] of the OP721
    base class, which is a dependency of the repository and not in its
    sources.  It records the collection parameters. *)
Definition instantiate (p : OP721InitParameters) : M Storage unit :=
  modify (with_collection p).

(** Modelled from the spec: the existence predicate [_exists(id)] of the
    OP721 base class: a token exists when the owner lookup succeeds. *)
Definition _exists (tokenId : Z) (s : Storage) : bool :=
  bool_decide (is_Some (ownerOfMap s !! tokenId)).

(** Modelled from the spec: the ledger mutation primitive
    [_mint(owner, id)] of the OP721 base class.  It sets the owner,
    increments the supply counter (with the ledger's trapping
    arithmetic) and emits a transfer event whose origin is the zero
    address. *)
Definition _mint (owner : Address) (tokenId : Z) : M Storage unit :=
  modify (with_owner tokenId owner) ;;;
  supply <- gets _totalSupply ;;
  supply' <- SafeMath.add supply u256.One ;;
  modify (with_totalSupply supply') ;;;
  modify (with_event (Transfer AddressOps.zero owner tokenId)).

(** Modelled from the spec: the metadata-URI store [_setTokenURI(id, uri)]
    of the OP721 base class; it keeps the string it is given. *)
Definition _setTokenURI (tokenId : Z) (uri : string) : M Storage unit :=
  modify (with_tokenURI tokenId uri).

(** Modelled from the spec: [_u256FromAddress] of the OP721 base class,
    the address bytes read as one 256-bit number. *)
Definition _u256FromAddress (a : Address) : Z := a.

(** Modelled from the spec: an ownership transfer of the OP721 base
    class.  The spec only says that a transfer may change the owner
    field of a token record; who is allowed to transfer is left to the
    base class, so every transfer of an existing token is allowed
    here. *)
Definition transfer (recipient : Address) (tokenId : Z) : M Storage unit :=
  owner <- gets (fun s => ownerOfMap s !! tokenId) ;;
  match owner with
  | None => throw (mkRevert "Token does not exist")
  | Some from =>
      modify (with_owner tokenId recipient) ;;;
      modify (with_event (Transfer from recipient tokenId))
  end.

End OP721.

(** ** The contract *)

Module OPFace.

Local Open Scope contract_scope.

(** Mint price: 0.005 tBTC = 500,000 satoshis. *)
Definition MINT_PRICE : Z := 500000.

(** Treasury address, compared with the decoded address of each output. *)
Definition TREASURY : string :=
  "bcrt1pzcu0e6e04uc5l43fvrr2czh2fxh5my8c08ggnywghw3hchznqdcsr9x2s9".

(** The three messages the contract reverts with.  The names are the
    ones of the error taxonomy; in the code each is a [Revert] told
    apart by its text.  A template literal prints a [u64] or a [u256]
    in decimal. *)
Definition SupplyExceeded : Revert :=
  mkRevert "OPFace: max supply of 100 reached".

Definition PaymentNotFound : Revert :=
  mkRevert ("OPFace: no output found sending " +:+ pretty MINT_PRICE
            +:+ " sat to treasury. "
            +:+ "Include an output to " +:+ TREASURY
            +:+ " with at least 0.005 tBTC.").

Definition TokenNotFound (tokenId : Z) : Revert :=
  mkRevert ("OPFace: token " +:+ pretty tokenId +:+ " does not exist").

Definition initParameters : OP721InitParameters :=
  mkInitParameters
    "OP Face"
    "OPFACE"
    "ipfs://"
    (u256.fromU32 100)
    ""
    ""
    "https://opface.btc"
    "Limited to 100 unique faces minted on Bitcoin via OP_NET.".

Definition onDeployment : M Storage unit :=
  OP721.instantiate initParameters ;;;
  modify (with_nextTokenId u256.One).

(** The condition of the [if] inside the payment loop:
    [out.to !== null && out.to === TREASURY && out.value >= MINT_PRICE]. *)
Definition pays_treasury (out : TransactionOutput) : bool :=
  match to out with
  | None => false
  | Some a => String.eqb a TREASURY && (MINT_PRICE <=? value out)
  end.

(** The [for] loop of [_requireTreasuryPayment]: return at the first
    output that pays, throw when the outputs are exhausted. *)
Fixpoint scan_outputs (outputs : list TransactionOutput) : M Storage unit :=
  match outputs with
  | [] => throw PaymentNotFound
  | out :: rest => if pays_treasury out then ret tt else scan_outputs rest
  end.

Definition _requireTreasuryPayment (bc : Blockchain) : M Storage unit :=
  scan_outputs (tx_outputs bc).

Definition _requireExists (tokenId : Z) : M Storage unit :=
  found <- gets (OP721._exists tokenId) ;;
  if found then ret tt else throw (TokenNotFound tokenId).

Definition mint (bc : Blockchain) (uri : string) : M Storage BytesWriter :=
  let sender := tx_sender bc in
  supply <- gets _totalSupply ;;
  if u256.fromU32 100 <=? supply then throw SupplyExceeded else
  _requireTreasuryPayment bc ;;;
  tokenId <- gets _nextTokenId ;;
  OP721._mint sender tokenId ;;;
  OP721._setTokenURI tokenId uri ;;;
  modify (with_minterOf tokenId (OP721._u256FromAddress sender)) ;;;
  modify (with_mintedAt tokenId (u256.fromU64 (block_number bc))) ;;;
  next <- SafeMath.add tokenId u256.One ;;
  modify (with_nextTokenId next) ;;;
  ret [WU256 tokenId].

Definition minterOf (tokenId : Z) : M Storage BytesWriter :=
  _requireExists tokenId ;;;
  minterU256 <- gets (fun s => StoredMapU256.get (_minterOf s) tokenId) ;;
  ret [WU256 minterU256].

Definition mintedAt (tokenId : Z) : M Storage BytesWriter :=
  _requireExists tokenId ;;;
  blockNum <- gets (fun s => StoredMapU256.get (_mintedAt s) tokenId) ;;
  ret [WU256 blockNum].

Definition mintPrice : M Storage BytesWriter :=
  ret [WU256 (u256.fromU64 MINT_PRICE)].

(** [TREASURY] is ASCII, so its UTF-8 encoding is the string itself. *)
Definition treasury : M Storage BytesWriter :=
  let encoded := TREASURY in
  ret [WU32 (Z.of_nat (String.length encoded)); WBytes encoded].

End OPFace.

(** ** The platform *)

(** A call either commits the storage it produced or, when it throws,
    leaves the storage it started from (atomic revert). *)
Definition atomic {A} (m : M Storage A) (s : Storage) : Result A * Storage :=
  match m s with
  | (Ok a, s') => (Ok a, s')
  | (Throw e, _) => (Throw e, s)
  end.

(** The calls a deployed instance can receive: the five methods of
    [OPFace] and the ownership transfers of the inherited ledger. *)
Inductive Call : Type :=
| CallMint (bc : Blockchain) (uri : string)
| CallMinterOf (tokenId : Z)
| CallMintedAt (tokenId : Z)
| CallMintPrice
| CallTreasury
| CallTransfer (recipient : Address) (tokenId : Z).

Definition dispatch (c : Call) : M Storage BytesWriter :=
  match c with
  | CallMint bc uri => OPFace.mint bc uri
  | CallMinterOf tokenId => OPFace.minterOf tokenId
  | CallMintedAt tokenId => OPFace.mintedAt tokenId
  | CallMintPrice => OPFace.mintPrice
  | CallTreasury => OPFace.treasury
  | CallTransfer recipient tokenId =>
      bind (OP721.transfer recipient tokenId) (fun _ => ret [])
  end.

Definition execute (c : Call) (s : Storage) : Result BytesWriter * Storage :=
  atomic (dispatch c) s.

(** The storage after a sequence of calls, executed one after the other. *)
Fixpoint run (cs : list Call) (s : Storage) : Storage :=
  match cs with
  | [] => s
  | c :: rest => run rest (snd (execute c s))
  end.

(** The token id a call minted, if it was a mint and it succeeded. *)
Definition minted_by (c : Call) (s : Storage) : list Z :=
  match c, fst (execute c s) with
  | CallMint _ _, Ok [WU256 tokenId] => [tokenId]
  | _, _ => []
  end.

(** The ids returned by the successful mints of a sequence, in order. *)
Fixpoint minted (cs : list Call) (s : Storage) : list Z :=
  match cs with
  | [] => []
  | c :: rest => minted_by c s ++ minted rest (snd (execute c s))
  end.

(** The storage right after deployment. *)
Definition deployed : Storage := snd (atomic OPFace.onDeployment fresh).

(** The number of mint calls of a sequence that succeeded. *)
Definition mint_succeeds (c : Call) (s : Storage) : bool :=
  match c, fst (execute c s) with
  | CallMint _ _, Ok _ => true
  | _, _ => false
  end.

Fixpoint successful_mints (cs : list Call) (s : Storage) : nat :=
  match cs with
  | [] => 0%nat
  | c :: rest =>
      ((if mint_succeeds c s then 1 else 0)
       + successful_mints rest (snd (execute c s)))%nat
  end.

(** A storage is reachable when some sequence of calls leads to it from
    the deployed one. *)
Definition reachable (s : Storage) : Prop :=
  exists cs : list Call, s = run cs deployed.

(** What a successful mint leaves behind, written as one record. *)
Definition after_mint (bc : Blockchain) (uri : string) (s : Storage) : Storage :=
  let tokenId := _nextTokenId s in
  mkStorage (collection s)
            (u256.add (_totalSupply s) u256.One)
            (u256.add tokenId u256.One)
            (<[tokenId := tx_sender bc]> (ownerOfMap s))
            (<[tokenId := uri]> (tokenURIMap s))
            (events s ++ [Transfer AddressOps.zero (tx_sender bc) tokenId])
            (<[tokenId := OP721._u256FromAddress (tx_sender bc)]> (_minterOf s))
            (<[tokenId := u256.fromU64 (block_number bc)]> (_mintedAt s)).

(** The invariant of the deployed contract: the counters move together
    and the three per-token maps are defined exactly on [1 .. supply]. *)
Record Inv (s : Storage) : Prop := mkInv {
  inv_supply : 0 <= _totalSupply s <= 100;
  inv_next : _nextTokenId s = _totalSupply s + 1;
  inv_owner : forall id, is_Some (ownerOfMap s !! id) <-> 1 <= id <= _totalSupply s;
  inv_minterOf : forall id, is_Some (_minterOf s !! id) <-> 1 <= id <= _totalSupply s;
  inv_mintedAt : forall id, is_Some (_mintedAt s !! id) <-> 1 <= id <= _totalSupply s
}.

(** The three ways a mint can end in a storage that satisfies the
    invariant. *)
Inductive MintOutcome (bc : Blockchain) (uri : string) (s : Storage) : Prop :=
| SoldOut :
    _totalSupply s = 100 ->
    OPFace.mint bc uri s = (Throw OPFace.SupplyExceeded, s) ->
    MintOutcome bc uri s
| Unpaid :
    _totalSupply s < 100 ->
    existsb OPFace.pays_treasury (tx_outputs bc) = false ->
    OPFace.mint bc uri s = (Throw OPFace.PaymentNotFound, s) ->
    MintOutcome bc uri s
| Minted :
    _totalSupply s < 100 ->
    existsb OPFace.pays_treasury (tx_outputs bc) = true ->
    OPFace.mint bc uri s = (Ok [WU256 (_nextTokenId s)], after_mint bc uri s) ->
    MintOutcome bc uri s.

(** What a call that is not a successful mint may change: the owner of
    tokens that exist and the event log, nothing else. *)
Record Quiet (s s' : Storage) : Prop := mkQuiet {
  quiet_supply : _totalSupply s' = _totalSupply s;
  quiet_next : _nextTokenId s' = _nextTokenId s;
  quiet_uri : tokenURIMap s' = tokenURIMap s;
  quiet_minterOf : _minterOf s' = _minterOf s;
  quiet_mintedAt : _mintedAt s' = _mintedAt s
}.

(** ** Sample transactions

    Concrete calls used to exercise the statements below: the scenarios
    of the specification (a payment of exactly the price, one of only
    400,000, no payment at all) and the storage after a hundred mints. *)

Definition alice : Address := 77.

Definition exact_payment : TransactionOutput :=
  mkOutput (Some OPFace.TREASURY) 500000.

Definition short_payment : TransactionOutput :=
  mkOutput (Some OPFace.TREASURY) 400000.

Definition paid_tx : Blockchain := mkBlockchain alice [exact_payment] 1234.

Definition unpaid_tx : Blockchain := mkBlockchain alice [] 1234.

Definition short_tx : Blockchain := mkBlockchain alice [short_payment] 1234.

Definition mixed_tx : Blockchain :=
  mkBlockchain alice [short_payment; exact_payment] 1234.

Definition hundred_mints : list Call :=
  repeat (CallMint paid_tx "ipfs://x") 100.

Definition sold_out : Storage := run hundred_mints deployed.

(** ** The web client

    The pure computations of the front end: [lib/ipfs.ts],
    [lib/wallet.ts], [lib/contract.ts], the mint form and the token
    page.  Network calls and rendering are left out.  JavaScript strings
    are represented by strings of ASCII characters, on which code units
    and bytes coincide; a [bigint] is a [Z]. *)

Module JS.

(** [s.startsWith(prefix)]. *)
Definition startsWith (s prefix : string) : bool := String.prefix prefix s.

(** [s.slice(n)] for [0 <= n]: the string without its first [n]
    characters. *)
Fixpoint slice_from (n : nat) (s : string) : string :=
  match n, s with
  | O, _ => s
  | S _, EmptyString => EmptyString
  | S n', String _ r => slice_from n' r
  end.

(** [s.slice(0, n)]: the first [n] characters. *)
Fixpoint slice_to (n : nat) (s : string) : string :=
  match n, s with
  | O, _ => EmptyString
  | S _, EmptyString => EmptyString
  | S n', String a r => String a (slice_to n' r)
  end.

(** [n] copies of one character. *)
Fixpoint repeat_char (a : ascii) (n : nat) : string :=
  match n with
  | O => EmptyString
  | S n' => String a (repeat_char a n')
  end.

(** [s.padStart(n, a)] and [s.padEnd(n, a)] for a one-character pad. *)
Definition padStart (n : nat) (a : ascii) (s : string) : string :=
  repeat_char a (n - String.length s) +:+ s.

Definition padEnd (n : nat) (a : ascii) (s : string) : string :=
  s +:+ repeat_char a (n - String.length s).

(** [s.split(sep)] for a one-character separator: never empty. *)
Fixpoint split (sep : ascii) (s : string) : list string :=
  match s with
  | EmptyString => [EmptyString]
  | String a r =>
      if Ascii.eqb a sep then EmptyString :: split sep r
      else match split sep r with
           | h :: t => String a h :: t
           | [] => [String a EmptyString]
           end
  end.

(** White space and line terminators among the ASCII characters. *)
Definition is_white (a : ascii) : bool :=
  let n := nat_of_ascii a in
  ((9 <=? n) && (n <=? 13) || (n =? 32))%nat.

Fixpoint trimStart (s : string) : string :=
  match s with
  | EmptyString => EmptyString
  | String a r => if is_white a then trimStart r else s
  end.

Fixpoint trimEnd (s : string) : string :=
  match s with
  | EmptyString => EmptyString
  | String a r =>
      match trimEnd r with
      | EmptyString => if is_white a then EmptyString else String a EmptyString
      | r' => String a r'
      end
  end.

(** Decimal digits, and strings made of them. *)
Definition is_digit (a : ascii) : bool :=
  let n := nat_of_ascii a in ((48 <=? n) && (n <=? 57))%nat.

Fixpoint all_digits (s : string) : bool :=
  match s with
  | EmptyString => true
  | String a r => is_digit a && all_digits r
  end.

(** The value of a digit in a radix, if it is one. *)
Definition digit_value (radix : Z) (a : ascii) : option Z :=
  let n := Z.of_nat (nat_of_ascii a) in
  let v := if (48 <=? n) && (n <=? 57) then n - 48
           else if (97 <=? n) && (n <=? 122) then n - 87
           else if (65 <=? n) && (n <=? 90) then n - 55
           else radix in
  if v <? radix then Some v else None.

Fixpoint parse_digits (radix : Z) (s : string) (acc : Z) : option Z :=
  match s with
  | EmptyString => Some acc
  | String a r =>
      match digit_value radix a with
      | Some d => parse_digits radix r (acc * radix + d)
      | None => None
      end
  end.

(** One digit at least. *)
Definition parse_number (radix : Z) (s : string) : option Z :=
  match s with
  | EmptyString => None
  | _ => parse_digits radix s 0
  end.

(** [BigInt(s)] for a string: white space around the literal is
    dropped; nothing left is zero; a decimal literal may carry a sign;
    [0x], [0o] and [0b] literals may not.  [None] is the [SyntaxError]
    thrown for anything else. *)
Definition BigInt (s : string) : option Z :=
  match trimEnd (trimStart s) with
  | EmptyString => Some 0
  | String a r as t =>
      if Ascii.eqb a "+" then parse_number 10 r
      else if Ascii.eqb a "-" then Z.opp <$> parse_number 10 r
      else if Ascii.eqb a "0" then
        match r with
        | String b r' =>
            if Ascii.eqb b "x" || Ascii.eqb b "X" then parse_number 16 r'
            else if Ascii.eqb b "o" || Ascii.eqb b "O" then parse_number 8 r'
            else if Ascii.eqb b "b" || Ascii.eqb b "B" then parse_number 2 r'
            else parse_number 10 t
        | EmptyString => parse_number 10 t
        end
      else parse_number 10 t
  end.

End JS.

(** *** [lib/ipfs.ts] *)

Module Ipfs.

Definition PINATA_GATEWAY : string := "https://gateway.pinata.cloud/ipfs".

Definition placeholder : string := "/placeholder.png".

(** Convert an [ipfs://] URI to a public HTTPS gateway URL. *)
Definition resolveIPFSUri (uri : string) : string :=
  if String.eqb uri "" then placeholder
  else if JS.startsWith uri "ipfs://" then
    let cid := JS.slice_from 7 uri in
    PINATA_GATEWAY +:+ "/" +:+ cid
  else if JS.startsWith uri "http" then uri
  else placeholder.

End Ipfs.

(** *** [lib/wallet.ts] *)

Module Wallet.

(** Convert satoshis to a BTC display string.  Division and remainder of
    [bigint] truncate towards zero. *)
Definition satToBTC (sat : Z) : string :=
  if sat =? 0 then "0.00000000"
  else
    let whole := Z.quot sat 100000000 in
    let frac := Z.rem sat 100000000 in
    pretty whole +:+ "." +:+ JS.padStart 8 "0" (pretty frac).

(** Parse a BTC string to satoshis; [None] when [BigInt] throws. *)
Definition btcToSat (btc : string) : option Z :=
  let parts := JS.split "." btc in
  let whole := default "0" (parts !! 0%nat) in
  let frac := default "" (parts !! 1%nat) in
  let fracPadded := JS.slice_to 8 (JS.padEnd 8 "0" frac) in
  match JS.BigInt whole with
  | None => None
  | Some w =>
      match JS.BigInt fracPadded with
      | None => None
      | Some f => Some (w * 100000000 + f)
      end
  end.

End Wallet.

(** *** [lib/contract.ts] *)

Module Client.

Definition MINT_PRICE_SAT : Z := 500000.

Definition MAX_SUPPLY : Z := 100.

(** The [for] loop of [fetchGallery]:
    [for (let id = supply; id >= from; id--) ids.push(id)]. *)
Equations? ids_loop (id from : Z) (ids : list Z) : list Z
  by wf (Z.to_nat (id - from + 1)) lt :=
  ids_loop id from ids with Z_le_gt_dec from id => {
    | left _ := ids_loop (id - 1) from (ids ++ [id]);
    | right _ := ids }.
Proof. lia. Qed.

(** The ids [fetchGallery] asks for, given the supply the contract
    reported and the number of tokens wanted (an integer). *)
Definition fetchGallery_ids (supply count : Z) : list Z :=
  if supply =? 0 then []
  else
    let from := if supply >? count then supply - count + 1 else 1 in
    ids_loop supply from [].

End Client.

(** *** The mint form *)

Module MintForm.

Definition isSoldOut (totalSupply : Z) : bool := 100 <=? totalSupply.

(** The id the form puts into the metadata before the mint is sent,
    [Number(totalSupply) + 1]; the conversion is exact below 2^53. *)
Definition tentativeTokenId (totalSupply : Z) : Z := totalSupply + 1.

(** The checks at the start of [handleMint]: the error shown, or [None]
    when the mint goes ahead.  A wallet address that is [null] or empty
    counts as missing; [file] and [provider] say whether a file is
    selected and a wallet provider is present. *)
Definition handleMint_guard
    (walletAddress : option string) (file : bool) (totalSupply : Z)
    (provider : bool) : option string :=
  match walletAddress with
  | None | Some EmptyString => Some "Please connect your wallet first."
  | Some _ =>
      if negb file then Some "Please select an image first."
      else if isSoldOut totalSupply
      then Some "All 100 OP Face NFTs have been minted."
      else if negb provider then Some "OP_WALLET not found."
      else None
  end.

End MintForm.

(** *** The token page *)

Module TokenPage.

(** What the page does with the [id] segment of its URL. *)
Inductive Route : Type :=
| Throws
| NotFound
| Fetch (tokenId : Z).

(** [BigInt(rawId || '0')], then the range guard in front of
    [fetchToken]. *)
Definition route (rawId : string) : Route :=
  match JS.BigInt (if String.eqb rawId "" then "0" else rawId) with
  | None => Throws
  | Some tokenId =>
      if (tokenId <=? 0) || (tokenId >? 100) then NotFound else Fetch tokenId
  end.

End TokenPage.

(** ** Theorems *)

(** *** The payment scan *)

Lemma pays_treasury_true (out : TransactionOutput) :
  OPFace.pays_treasury out = true <->
  to out = Some OPFace.TREASURY /\ OPFace.MINT_PRICE <= value out.
Proof.
  unfold OPFace.pays_treasury.
  destruct (to out) as [a|]; [|split; [discriminate | intros [? _]; discriminate]].
  rewrite andb_true_iff, String.eqb_eq, Z.leb_le.
  split; intros [Ha Hv]; split; congruence || assumption.
Qed.

Lemma scan_outputs_eq (outputs : list TransactionOutput) (s : Storage) :
  OPFace.scan_outputs outputs s =
  if existsb OPFace.pays_treasury outputs
  then (Ok tt, s) else (Throw OPFace.PaymentNotFound, s).
Proof.
  induction outputs as [|out rest IH]; simpl; [reflexivity|].
  destruct (OPFace.pays_treasury out); simpl; [reflexivity | exact IH].
Qed.

Lemma existsb_pays_true (outputs : list TransactionOutput) :
  existsb OPFace.pays_treasury outputs = true <->
  exists out, In out outputs /\
              to out = Some OPFace.TREASURY /\ OPFace.MINT_PRICE <= value out.
Proof.
  rewrite existsb_exists.
  split; intros (out & Hin & H); exists out; split; try assumption;
    apply pays_treasury_true; assumption.
Qed.

Lemma existsb_pays_false (outputs : list TransactionOutput) :
  existsb OPFace.pays_treasury outputs = false <->
  forall out, In out outputs ->
              ~ (to out = Some OPFace.TREASURY /\ OPFace.MINT_PRICE <= value out).
Proof.
  rewrite <- not_true_iff_false, existsb_pays_true.
  split.
  - intros Hno out Hin Hq. apply Hno. exists out. split; assumption.
  - intros Hall (out & Hin & Hq). exact (Hall out Hin Hq).
Qed.

(** *** Equations for [mint] *)

Lemma u256_add_one (a : Z) :
  0 <= a <= 100 -> u256.add a u256.One = a + 1.
Proof.
  intros Ha. unfold u256.add, u256.One, u256.modulus.
  apply Z.mod_small. split; [lia|].
  assert (2 ^ 8 <= 2 ^ 256) by (apply Z.pow_le_mono_r; lia).
  change (2 ^ 8) with 256 in *. lia.
Qed.

Lemma mint_sold_out (bc : Blockchain) (uri : string) (s : Storage) :
  100 <= _totalSupply s ->
  OPFace.mint bc uri s = (Throw OPFace.SupplyExceeded, s).
Proof.
  intros Hs. unfold OPFace.mint, bind, gets, throw, u256.fromU32.
  destruct (Z.leb_spec 100 (_totalSupply s)); [reflexivity | lia].
Qed.

Lemma mint_unpaid (bc : Blockchain) (uri : string) (s : Storage) :
  _totalSupply s < 100 ->
  existsb OPFace.pays_treasury (tx_outputs bc) = false ->
  OPFace.mint bc uri s = (Throw OPFace.PaymentNotFound, s).
Proof.
  intros Hs Hp. unfold OPFace.mint, bind, gets, throw, u256.fromU32.
  destruct (Z.leb_spec 100 (_totalSupply s)); [lia|].
  unfold OPFace._requireTreasuryPayment.
  rewrite scan_outputs_eq, Hp. reflexivity.
Qed.

Lemma mint_paid_any (bc : Blockchain) (uri : string) (s : Storage) :
  _totalSupply s < 100 ->
  existsb OPFace.pays_treasury (tx_outputs bc) = true ->
  (exists s1, OPFace.mint bc uri s = (Throw SafeMath.overflow, s1)) \/
  OPFace.mint bc uri s = (Ok [WU256 (_nextTokenId s)], after_mint bc uri s).
Proof.
  intros Hs Hp. unfold OPFace.mint, bind, gets, throw, u256.fromU32.
  destruct (Z.leb_spec 100 (_totalSupply s)); [lia|].
  unfold OPFace._requireTreasuryPayment.
  rewrite scan_outputs_eq, Hp.
  unfold OP721._mint, OP721._setTokenURI, SafeMath.add, bind, gets, modify, ret, throw.
  cbn [_totalSupply _nextTokenId with_owner with_totalSupply with_event
       with_tokenURI with_minterOf with_mintedAt with_nextTokenId].
  destruct (u256.add (_totalSupply s) u256.One <? _totalSupply s);
    [left; eexists; reflexivity|].
  cbn [_totalSupply _nextTokenId with_owner with_totalSupply with_event
       with_tokenURI with_minterOf with_mintedAt with_nextTokenId
       collection ownerOfMap tokenURIMap events _minterOf _mintedAt].
  destruct (u256.add (_nextTokenId s) u256.One <? _nextTokenId s);
    [left; eexists; reflexivity|].
  right. reflexivity.
Qed.

Lemma mint_paid (bc : Blockchain) (uri : string) (s : Storage) :
  0 <= _totalSupply s < 100 ->
  _nextTokenId s = _totalSupply s + 1 ->
  existsb OPFace.pays_treasury (tx_outputs bc) = true ->
  OPFace.mint bc uri s = (Ok [WU256 (_nextTokenId s)], after_mint bc uri s).
Proof.
  intros Hs Hn Hp. unfold OPFace.mint, bind, gets, throw, u256.fromU32.
  destruct (Z.leb_spec 100 (_totalSupply s)); [lia|].
  unfold OPFace._requireTreasuryPayment.
  rewrite scan_outputs_eq, Hp.
  unfold OP721._mint, OP721._setTokenURI, SafeMath.add, bind, gets, modify, ret, throw.
  cbn [_totalSupply _nextTokenId with_owner with_totalSupply with_event
       with_tokenURI with_minterOf with_mintedAt with_nextTokenId].
  rewrite (u256_add_one (_totalSupply s)) by lia.
  destruct (Z.ltb_spec (_totalSupply s + 1) (_totalSupply s)); [lia|].
  cbn [_totalSupply _nextTokenId with_owner with_totalSupply with_event
       with_tokenURI with_minterOf with_mintedAt with_nextTokenId
       collection ownerOfMap tokenURIMap events _minterOf _mintedAt].
  rewrite (u256_add_one (_nextTokenId s)) by lia.
  destruct (Z.ltb_spec (_nextTokenId s + 1) (_nextTokenId s)); [lia|].
  unfold after_mint.
  rewrite (u256_add_one (_totalSupply s)), (u256_add_one (_nextTokenId s)) by lia.
  reflexivity.
Qed.

(** *** Reads do not write *)

Lemma requireExists_eq (tokenId : Z) (s : Storage) :
  OPFace._requireExists tokenId s =
  if OP721._exists tokenId s
  then (Ok tt, s) else (Throw (OPFace.TokenNotFound tokenId), s).
Proof.
  unfold OPFace._requireExists, bind, gets.
  destruct (OP721._exists tokenId s); reflexivity.
Qed.

Lemma minterOf_eq (tokenId : Z) (s : Storage) :
  OPFace.minterOf tokenId s =
  if OP721._exists tokenId s
  then (Ok [WU256 (StoredMapU256.get (_minterOf s) tokenId)], s)
  else (Throw (OPFace.TokenNotFound tokenId), s).
Proof.
  unfold OPFace.minterOf, bind. rewrite requireExists_eq.
  destruct (OP721._exists tokenId s); reflexivity.
Qed.

Lemma mintedAt_eq (tokenId : Z) (s : Storage) :
  OPFace.mintedAt tokenId s =
  if OP721._exists tokenId s
  then (Ok [WU256 (StoredMapU256.get (_mintedAt s) tokenId)], s)
  else (Throw (OPFace.TokenNotFound tokenId), s).
Proof.
  unfold OPFace.mintedAt, bind. rewrite requireExists_eq.
  destruct (OP721._exists tokenId s); reflexivity.
Qed.

Lemma exists_true (tokenId : Z) (s : Storage) :
  OP721._exists tokenId s = true <-> is_Some (ownerOfMap s !! tokenId).
Proof. unfold OP721._exists. apply bool_decide_eq_true. Qed.

Lemma exists_false (tokenId : Z) (s : Storage) :
  OP721._exists tokenId s = false <-> ownerOfMap s !! tokenId = None.
Proof.
  unfold OP721._exists. rewrite bool_decide_eq_false.
  rewrite <- eq_None_not_Some. reflexivity.
Qed.

Lemma transfer_eq (recipient : Address) (tokenId : Z) (s : Storage) :
  OP721.transfer recipient tokenId s =
  match ownerOfMap s !! tokenId with
  | None => (Throw (mkRevert "Token does not exist"), s)
  | Some from =>
      (Ok tt, with_event (Transfer from recipient tokenId)
                         (with_owner tokenId recipient s))
  end.
Proof.
  unfold OP721.transfer, bind, gets.
  destruct (ownerOfMap s !! tokenId); reflexivity.
Qed.

(** *** One call at a time *)

Lemma mint_outcome (bc : Blockchain) (uri : string) (s : Storage) :
  Inv s -> MintOutcome bc uri s.
Proof.
  intros [Hs Hn _ _ _].
  destruct (Z_lt_le_dec (_totalSupply s) 100) as [Hlt|Hge].
  - destruct (existsb OPFace.pays_treasury (tx_outputs bc)) eqn:Hp.
    + apply Minted; [assumption | assumption |].
      apply mint_paid; [lia | assumption | assumption].
    + apply Unpaid; [assumption | assumption |].
      apply mint_unpaid; assumption.
  - apply SoldOut; [lia |]. apply mint_sold_out; assumption.
Qed.

Lemma Inv_deployed : Inv deployed.
Proof.
  split; cbn.
  - lia.
  - reflexivity.
  - intros id. rewrite lookup_empty. split; [intros [? ?]; discriminate | lia].
  - intros id. rewrite lookup_empty. split; [intros [? ?]; discriminate | lia].
  - intros id. rewrite lookup_empty. split; [intros [? ?]; discriminate | lia].
Qed.

Lemma dom_after_insert {V} (m : gmap Z V) (n : Z) (v : V) :
  (forall id, is_Some (m !! id) <-> 1 <= id <= n) ->
  0 <= n ->
  forall id, is_Some (<[n + 1 := v]> m !! id) <-> 1 <= id <= n + 1.
Proof.
  intros Hdom Hn id.
  destruct (decide (id = n + 1)) as [->|Hne].
  - rewrite lookup_insert_eq. split; [lia | eauto].
  - rewrite lookup_insert_ne by congruence. rewrite Hdom. lia.
Qed.

Lemma Inv_after_mint (bc : Blockchain) (uri : string) (s : Storage) :
  Inv s -> _totalSupply s < 100 -> Inv (after_mint bc uri s).
Proof.
  intros [Hs Hn Ho Hm Ha] Hlt.
  unfold after_mint.
  rewrite (u256_add_one (_totalSupply s)), (u256_add_one (_nextTokenId s)) by lia.
  split; cbn [_totalSupply _nextTokenId ownerOfMap _minterOf _mintedAt].
  - lia.
  - lia.
  - rewrite Hn. apply dom_after_insert; [assumption | lia].
  - rewrite Hn. apply dom_after_insert; [assumption | lia].
  - rewrite Hn. apply dom_after_insert; [assumption | lia].
Qed.

Lemma Inv_execute (c : Call) (s : Storage) :
  Inv s -> Inv (snd (execute c s)).
Proof.
  intros HI. unfold execute, atomic.
  destruct c as [bc uri|tokenId|tokenId| | |recipient tokenId]; cbn [dispatch].
  - destruct (mint_outcome bc uri s HI) as [_ ->| _ _ ->|Hlt _ ->]; cbn;
      auto using Inv_after_mint.
  - rewrite minterOf_eq. destruct (OP721._exists tokenId s); exact HI.
  - rewrite mintedAt_eq. destruct (OP721._exists tokenId s); exact HI.
  - exact HI.
  - exact HI.
  - unfold bind. rewrite transfer_eq.
    destruct (ownerOfMap s !! tokenId) as [from|] eqn:Hown; cbn; [|exact HI].
    destruct HI as [Hs Hn Ho Hm Ha].
    split; cbn; try assumption.
    intros id. destruct (decide (id = tokenId)) as [->|Hne].
    + rewrite lookup_insert_eq. rewrite <- Ho, Hown. split; eauto.
    + rewrite lookup_insert_ne by congruence. apply Ho.
Qed.

Lemma Inv_run (cs : list Call) (s : Storage) :
  Inv s -> Inv (run cs s).
Proof.
  revert s. induction cs as [|c rest IH]; intros s HI; cbn; [exact HI|].
  apply IH, Inv_execute, HI.
Qed.

Lemma reachable_Inv (s : Storage) : reachable s -> Inv s.
Proof. intros [cs ->]. apply Inv_run, Inv_deployed. Qed.

Lemma reachable_deployed : reachable deployed.
Proof. exists []. reflexivity. Qed.

Lemma run_app (cs1 cs2 : list Call) (s : Storage) :
  run (cs1 ++ cs2) s = run cs2 (run cs1 s).
Proof.
  revert s. induction cs1 as [|c rest IH]; intros s; cbn; [reflexivity|].
  apply IH.
Qed.

Lemma reachable_execute (c : Call) (s : Storage) :
  reachable s -> reachable (snd (execute c s)).
Proof.
  intros [cs ->]. exists (cs ++ [c]). rewrite run_app. reflexivity.
Qed.

Lemma reachable_run (cs : list Call) (s : Storage) :
  reachable s -> reachable (run cs s).
Proof.
  intros [cs0 ->]. exists (cs0 ++ cs). symmetry. apply run_app.
Qed.

(** *** The three reverts are different errors *)

Lemma Throw_inj {A} (e1 e2 : Revert) :
  @Throw A e1 = Throw e2 -> e1 = e2.
Proof.
  intros H.
  exact (f_equal (fun r => match r with Throw e => e | Ok _ => e1 end) H).
Qed.

Lemma PaymentNotFound_message :
  message OPFace.PaymentNotFound =
  "OPFace: no output found sending 500000 sat to treasury. Include an output to bcrt1pzcu0e6e04uc5l43fvrr2czh2fxh5my8c08ggnywghw3hchznqdcsr9x2s9 with at least 0.005 tBTC.".
Proof. vm_compute. reflexivity. Qed.

Lemma SupplyExceeded_not_PaymentNotFound :
  OPFace.SupplyExceeded <> OPFace.PaymentNotFound.
Proof.
  intros H. apply (f_equal message) in H.
  rewrite PaymentNotFound_message in H. discriminate H.
Qed.

Lemma overflow_not_PaymentNotFound :
  SafeMath.overflow <> OPFace.PaymentNotFound.
Proof.
  intros H. apply (f_equal message) in H.
  rewrite PaymentNotFound_message in H. discriminate H.
Qed.

Lemma overflow_not_SupplyExceeded :
  SafeMath.overflow <> OPFace.SupplyExceeded.
Proof. discriminate. Qed.

(** Every way [mint] can end, in any storage. *)
Lemma mint_any (bc : Blockchain) (uri : string) (s : Storage) :
  (100 <= _totalSupply s /\
   OPFace.mint bc uri s = (Throw OPFace.SupplyExceeded, s)) \/
  (_totalSupply s < 100 /\
   existsb OPFace.pays_treasury (tx_outputs bc) = false /\
   OPFace.mint bc uri s = (Throw OPFace.PaymentNotFound, s)) \/
  (_totalSupply s < 100 /\
   existsb OPFace.pays_treasury (tx_outputs bc) = true /\
   exists s1, OPFace.mint bc uri s = (Throw SafeMath.overflow, s1)) \/
  (_totalSupply s < 100 /\
   existsb OPFace.pays_treasury (tx_outputs bc) = true /\
   OPFace.mint bc uri s = (Ok [WU256 (_nextTokenId s)], after_mint bc uri s)).
Proof.
  destruct (Z_lt_le_dec (_totalSupply s) 100) as [Hlt|Hge].
  - destruct (existsb OPFace.pays_treasury (tx_outputs bc)) eqn:Hp.
    + destruct (mint_paid_any bc uri s Hlt Hp) as [Hov|Hok]; auto 10.
    + right; left. auto using mint_unpaid.
  - left. auto using mint_sold_out.
Qed.

(** *** Claims about the two preconditions *)

(** C1 (as amended).  For a call to [mint] made while fewer than 100
    tokens are minted: if no output of the transaction goes to the
    treasury address with a value of at least 500000, the call reverts
    with PaymentNotFound, having written nothing, and the message
    contains both the price in decimal and the treasury address; if some
    output does, the payment check passes and the call does not revert
    with PaymentNotFound nor with SupplyExceeded. *)
Theorem C1_payment_check (bc : Blockchain) (uri : string) (s : Storage) :
  _totalSupply s < 100 ->
  ((forall out, In out (tx_outputs bc) ->
      ~ (to out = Some OPFace.TREASURY /\ 500000 <= value out)) ->
   OPFace.mint bc uri s = (Throw OPFace.PaymentNotFound, s) /\
   (exists pre post,
      message OPFace.PaymentNotFound = pre +:+ "500000" +:+ post) /\
   (exists pre post,
      message OPFace.PaymentNotFound = pre +:+ OPFace.TREASURY +:+ post))
  /\
  ((exists out, In out (tx_outputs bc) /\
      to out = Some OPFace.TREASURY /\ 500000 <= value out) ->
   OPFace._requireTreasuryPayment bc s = (Ok tt, s) /\
   fst (OPFace.mint bc uri s) <> Throw OPFace.PaymentNotFound /\
   fst (OPFace.mint bc uri s) <> Throw OPFace.SupplyExceeded).
Proof.
  intros Hlt. split.
  - intros Hnone. apply existsb_pays_false in Hnone.
    split; [apply mint_unpaid; assumption|]. split.
    + exists "OPFace: no output found sending ".
      exists " sat to treasury. Include an output to bcrt1pzcu0e6e04uc5l43fvrr2czh2fxh5my8c08ggnywghw3hchznqdcsr9x2s9 with at least 0.005 tBTC.".
      vm_compute. reflexivity.
    + exists "OPFace: no output found sending 500000 sat to treasury. Include an output to ".
      exists " with at least 0.005 tBTC.".
      vm_compute. reflexivity.
  - intros Hsome. apply existsb_pays_true in Hsome.
    split.
    + unfold OPFace._requireTreasuryPayment. rewrite scan_outputs_eq, Hsome.
      reflexivity.
    + destruct (mint_paid_any bc uri s Hlt Hsome) as [[s1 ->]| ->]; cbn [fst].
      * split; intros H; apply Throw_inj in H.
        -- exact (overflow_not_PaymentNotFound H).
        -- exact (overflow_not_SupplyExceeded H).
      * split; discriminate.
Qed.

Lemma C1_payment_check_witness :
  OPFace.mint short_tx "ipfs://b" deployed
    = (Throw OPFace.PaymentNotFound, deployed) /\
  OPFace._requireTreasuryPayment paid_tx deployed = (Ok tt, deployed).
Proof.
  assert (Hlt : _totalSupply deployed < 100) by (vm_compute; reflexivity).
  destruct (C1_payment_check short_tx "ipfs://b" deployed Hlt) as [Hno _].
  destruct (C1_payment_check paid_tx "ipfs://b" deployed Hlt) as [_ Hyes].
  split.
  - apply Hno. intros out [<-|[]] [_ Hv]. cbn in Hv. lia.
  - apply Hyes. exists exact_payment. split; [left; reflexivity|].
    split; [reflexivity | cbn; lia].
Defined.

(** C1 as written fails once the supply is exhausted: a call without
    any payment then reverts with SupplyExceeded, because the supply
    check comes first. *)
Lemma C1_counterexample :
  reachable sold_out /\
  (forall out, In out (tx_outputs unpaid_tx) ->
     ~ (to out = Some OPFace.TREASURY /\ 500000 <= value out)) /\
  fst (OPFace.mint unpaid_tx "ipfs://x" sold_out) = Throw OPFace.SupplyExceeded /\
  fst (OPFace.mint unpaid_tx "ipfs://x" sold_out) <> Throw OPFace.PaymentNotFound.
Proof.
  assert (Hm : fst (OPFace.mint unpaid_tx "ipfs://x" sold_out)
               = Throw OPFace.SupplyExceeded) by (vm_compute; reflexivity).
  split; [exists hundred_mints; reflexivity|].
  split; [intros out []|].
  split; [exact Hm|].
  rewrite Hm. intros H. apply Throw_inj in H.
  exact (SupplyExceeded_not_PaymentNotFound H).
Qed.

(** C2 (as amended).  For a mint attempt in a reachable storage with
    fewer than 100 tokens minted: if every output addressed to the
    treasury (there may be none) carries less than 500000, the call
    reverts with PaymentNotFound; if some output addressed to the
    treasury carries exactly 500000, the call succeeds. *)
Theorem C2_threshold (bc : Blockchain) (uri : string) (s : Storage) :
  reachable s ->
  _totalSupply s < 100 ->
  ((forall out, In out (tx_outputs bc) ->
      to out = Some OPFace.TREASURY -> value out < 500000) ->
   OPFace.mint bc uri s = (Throw OPFace.PaymentNotFound, s))
  /\
  ((exists out, In out (tx_outputs bc) /\
      to out = Some OPFace.TREASURY /\ value out = 500000) ->
   OPFace.mint bc uri s = (Ok [WU256 (_nextTokenId s)], after_mint bc uri s)).
Proof.
  intros Hr Hlt. apply reachable_Inv in Hr. destruct Hr as [Hs Hn _ _ _].
  split.
  - intros Hbelow. apply mint_unpaid; [assumption|].
    apply existsb_pays_false. intros out Hin [Hto Hv].
    specialize (Hbelow out Hin Hto). unfold OPFace.MINT_PRICE in Hv. lia.
  - intros (out & Hin & Hto & Hv).
    apply mint_paid; [lia | assumption |].
    apply existsb_pays_true. exists out.
    unfold OPFace.MINT_PRICE. repeat split; [assumption | assumption | lia].
Qed.

Lemma C2_threshold_witness :
  OPFace.mint short_tx "ipfs://b" deployed
    = (Throw OPFace.PaymentNotFound, deployed) /\
  OPFace.mint paid_tx "ipfs://a" deployed
    = (Ok [WU256 1], after_mint paid_tx "ipfs://a" deployed).
Proof.
  assert (Hlt : _totalSupply deployed < 100) by (vm_compute; reflexivity).
  destruct (C2_threshold short_tx "ipfs://b" deployed reachable_deployed Hlt)
    as [Hno _].
  destruct (C2_threshold paid_tx "ipfs://a" deployed reachable_deployed Hlt)
    as [_ Hyes].
  split.
  - apply Hno. intros out [<-|[]] _. cbn. lia.
  - apply Hyes. exists exact_payment. split; [left; reflexivity|].
    split; reflexivity.
Defined.

(** C2 as written fails in two ways.  With the supply exhausted, a call
    without an output to the treasury reverts with SupplyExceeded.  And
    a transaction that has an output to the treasury below the price
    next to one that reaches it is accepted. *)
Lemma C2_counterexample :
  (reachable sold_out /\
   (forall out, In out (tx_outputs unpaid_tx) ->
      to out <> Some OPFace.TREASURY) /\
   fst (OPFace.mint unpaid_tx "ipfs://x" sold_out) = Throw OPFace.SupplyExceeded /\
   fst (OPFace.mint unpaid_tx "ipfs://x" sold_out) <> Throw OPFace.PaymentNotFound)
  /\
  (reachable deployed /\
   (exists out, In out (tx_outputs mixed_tx) /\
      to out = Some OPFace.TREASURY /\ value out < 500000) /\
   fst (OPFace.mint mixed_tx "ipfs://x" deployed) = Ok [WU256 1]).
Proof.
  assert (Hm : fst (OPFace.mint unpaid_tx "ipfs://x" sold_out)
               = Throw OPFace.SupplyExceeded) by (vm_compute; reflexivity).
  split.
  - split; [exists hundred_mints; reflexivity|].
    split; [intros out []|].
    split; [exact Hm|].
    rewrite Hm. intros H. apply Throw_inj in H.
    exact (SupplyExceeded_not_PaymentNotFound H).
  - split; [exact reachable_deployed|].
    split; [|vm_compute; reflexivity].
    exists short_payment. split; [left; reflexivity|].
    split; [reflexivity | cbn; lia].
Qed.

(** C3.  In every storage whose minted count is at least 100, every call
    to [mint] reverts with SupplyExceeded, whatever outputs the
    transaction carries, and nothing is written. *)
Theorem C3_supply_cap (bc : Blockchain) (uri : string) (s : Storage) :
  100 <= _totalSupply s ->
  OPFace.mint bc uri s = (Throw OPFace.SupplyExceeded, s) /\
  execute (CallMint bc uri) s = (Throw OPFace.SupplyExceeded, s).
Proof.
  intros Hs. pose proof (mint_sold_out bc uri s Hs) as Hm.
  split; [exact Hm|].
  unfold execute, atomic. cbn [dispatch]. rewrite Hm. reflexivity.
Qed.

Lemma C3_supply_cap_witness :
  _totalSupply sold_out = 100 /\
  existsb OPFace.pays_treasury (tx_outputs paid_tx) = true /\
  execute (CallMint paid_tx "ipfs://x") sold_out
    = (Throw OPFace.SupplyExceeded, sold_out).
Proof.
  assert (Hs : _totalSupply sold_out = 100) by (vm_compute; reflexivity).
  split; [exact Hs|]. split; [reflexivity|].
  apply (C3_supply_cap paid_tx "ipfs://x" sold_out). rewrite Hs. lia.
Defined.

(** *** Sequences of calls *)

Lemma Quiet_refl (s : Storage) : Quiet s s.
Proof. split; reflexivity. Qed.

(** One call either is a successful mint, which assigns the next id, or
    leaves counters and provenance maps alone. *)
Lemma execute_step (c : Call) (s : Storage) :
  Inv s ->
  (exists bc uri,
     c = CallMint bc uri /\
     _totalSupply s < 100 /\
     execute c s = (Ok [WU256 (_nextTokenId s)], after_mint bc uri s) /\
     mint_succeeds c s = true /\
     minted_by c s = [_nextTokenId s]) \/
  (Quiet s (snd (execute c s)) /\
   mint_succeeds c s = false /\
   minted_by c s = []).
Proof.
  intros HI. unfold mint_succeeds, minted_by, execute, atomic.
  destruct c as [bc uri|tokenId|tokenId| | |recipient tokenId]; cbn [dispatch].
  - destruct (mint_outcome bc uri s HI) as [_ ->| _ _ ->|Hlt _ ->]; cbn [fst snd].
    + right. auto using Quiet_refl.
    + right. auto using Quiet_refl.
    + left. exists bc, uri. auto.
  - right. rewrite minterOf_eq.
    destruct (OP721._exists tokenId s); cbn; auto using Quiet_refl.
  - right. rewrite mintedAt_eq.
    destruct (OP721._exists tokenId s); cbn; auto using Quiet_refl.
  - right. cbn. auto using Quiet_refl.
  - right. cbn. auto using Quiet_refl.
  - right. unfold bind. rewrite transfer_eq.
    destruct (ownerOfMap s !! tokenId); cbn; auto using Quiet_refl.
    repeat split; reflexivity.
Qed.

Lemma after_mint_counters (bc : Blockchain) (uri : string) (s : Storage) :
  Inv s -> _totalSupply s < 100 ->
  _totalSupply (after_mint bc uri s) = _totalSupply s + 1 /\
  _nextTokenId (after_mint bc uri s) = _nextTokenId s + 1.
Proof.
  intros [Hs Hn _ _ _] Hlt. unfold after_mint. cbn [_totalSupply _nextTokenId].
  rewrite !u256_add_one by lia. split; reflexivity.
Qed.

Lemma supply_run (cs : list Call) (s : Storage) :
  Inv s ->
  _totalSupply (run cs s) = _totalSupply s + Z.of_nat (successful_mints cs s).
Proof.
  revert s. induction cs as [|c rest IH]; intros s HI; cbn [run successful_mints].
  - cbn. lia.
  - rewrite (IH _ (Inv_execute c s HI)).
    destruct (execute_step c s HI)
      as [(bc & uri & _ & Hlt & Hex & -> & _)|([Hq _ _ _ _] & -> & _)].
    + rewrite Hex. cbn [snd].
      destruct (after_mint_counters bc uri s HI Hlt) as [-> _]. lia.
    + rewrite Hq. lia.
Qed.

Lemma supply_mono (cs : list Call) (s : Storage) :
  Inv s -> _totalSupply s <= _totalSupply (run cs s).
Proof. intros HI. rewrite supply_run by assumption. lia. Qed.

(** The ids minted by a sequence are the ones between the supply before
    and the supply after. *)
Lemma minted_range (cs : list Call) (s : Storage) (id : Z) :
  Inv s ->
  In id (minted cs s) <-> _totalSupply s < id <= _totalSupply (run cs s).
Proof.
  revert s. induction cs as [|c rest IH]; intros s HI; cbn [run minted].
  - split; [intros [] | lia].
  - rewrite in_app_iff, (IH _ (Inv_execute c s HI)).
    pose proof (supply_mono rest _ (Inv_execute c s HI)) as Hmono.
    destruct (execute_step c s HI)
      as [(bc & uri & _ & Hlt & Hex & _ & ->)|([Hq _ _ _ _] & _ & ->)].
    + rewrite Hex in *. cbn [snd] in *.
      destruct (after_mint_counters bc uri s HI Hlt) as [Hsup _].
      rewrite Hsup in *. rewrite (inv_next s HI). cbn [In]. lia.
    + rewrite Hq in *. cbn [In]. tauto.
Qed.

(** Provenance entries of ids up to the current supply survive any call. *)
Lemma provenance_execute (c : Call) (s : Storage) (id : Z) :
  Inv s -> id <= _totalSupply s ->
  _minterOf (snd (execute c s)) !! id = _minterOf s !! id /\
  _mintedAt (snd (execute c s)) !! id = _mintedAt s !! id.
Proof.
  intros HI Hid.
  destruct (execute_step c s HI)
    as [(bc & uri & _ & Hlt & Hex & _ & _)|([_ _ _ Hm Ha] & _ & _)].
  - rewrite Hex. unfold after_mint. cbn [snd _minterOf _mintedAt].
    rewrite (inv_next s HI).
    rewrite !lookup_insert_ne by lia. split; reflexivity.
  - rewrite Hm, Ha. split; reflexivity.
Qed.

Lemma provenance_run (cs : list Call) (s : Storage) (id : Z) :
  Inv s -> id <= _totalSupply s ->
  _minterOf (run cs s) !! id = _minterOf s !! id /\
  _mintedAt (run cs s) !! id = _mintedAt s !! id.
Proof.
  revert s. induction cs as [|c rest IH]; intros s HI Hid; cbn [run].
  - split; reflexivity.
  - destruct (provenance_execute c s id HI Hid) as [<- <-].
    apply IH; [apply Inv_execute, HI|].
    pose proof (supply_mono [c] s HI) as Hmono. cbn [run] in Hmono. lia.
Qed.

(** C4.  From the deployed storage (supply 0, next id 1), after any
    sequence of calls of which exactly N mints succeeded, the supply is N
    and the next id is N + 1, and N is at most 100; and a successful mint
    in a reachable storage adds exactly 1 to the next id. *)
Theorem C4_counters (cs : list Call) :
  let N := Z.of_nat (successful_mints cs deployed) in
  _totalSupply deployed = 0 /\
  _nextTokenId deployed = 1 /\
  0 <= N <= 100 /\
  _totalSupply (run cs deployed) = N /\
  _nextTokenId (run cs deployed) = N + 1 /\
  (forall bc uri w s',
     OPFace.mint bc uri (run cs deployed) = (Ok w, s') ->
     _nextTokenId s' = _nextTokenId (run cs deployed) + 1).
Proof.
  intros N.
  pose proof (Inv_run cs deployed Inv_deployed) as HI.
  pose proof (supply_run cs deployed Inv_deployed) as Hsup.
  change (_totalSupply deployed) with 0 in Hsup. fold N in Hsup.
  split; [reflexivity|]. split; [reflexivity|].
  split; [pose proof (inv_supply _ HI); lia|].
  split; [lia|].
  split; [rewrite (inv_next _ HI); lia|].
  intros bc uri w s' Hm.
  destruct (mint_outcome bc uri _ HI) as [_ Hm'| _ _ Hm'|Hlt _ Hm'];
    rewrite Hm' in Hm; try discriminate Hm.
  injection Hm as _ <-.
  apply (after_mint_counters bc uri _ HI Hlt).
Qed.

Lemma C4_counters_witness :
  _totalSupply (run [CallMint short_tx "ipfs://b"; CallMint paid_tx "ipfs://a"] deployed) = 1 /\
  _nextTokenId (after_mint paid_tx "ipfs://c"
     (run [CallMint short_tx "ipfs://b"; CallMint paid_tx "ipfs://a"] deployed)) = 3.
Proof.
  destruct (C4_counters [CallMint short_tx "ipfs://b"; CallMint paid_tx "ipfs://a"])
    as (_ & _ & _ & Hs & Hn & Hstep).
  split; [exact Hs|].
  assert (Hm : OPFace.mint paid_tx "ipfs://c"
                 (run [CallMint short_tx "ipfs://b"; CallMint paid_tx "ipfs://a"] deployed)
               = (Ok [WU256 2], after_mint paid_tx "ipfs://c"
                 (run [CallMint short_tx "ipfs://b"; CallMint paid_tx "ipfs://a"] deployed)))
    by (vm_compute; reflexivity).
  rewrite (Hstep _ _ _ _ Hm), Hn. reflexivity.
Defined.

(** *** Failure, results and provenance *)

(** C5.  When a call to [mint] reverts with SupplyExceeded or with
    PaymentNotFound, the storage at the point of the throw is the storage
    the call started from: no write precedes the two checks.  Whatever
    the revert, the storage the platform keeps is the one from before
    the call; and in a reachable storage these two reverts are the only
    ones. *)
Theorem C5_failed_mint_writes_nothing
    (bc : Blockchain) (uri : string) (s : Storage) (e : Revert) :
  fst (OPFace.mint bc uri s) = Throw e ->
  (e = OPFace.SupplyExceeded \/ e = OPFace.PaymentNotFound ->
   snd (OPFace.mint bc uri s) = s) /\
  snd (execute (CallMint bc uri) s) = s /\
  (reachable s -> e = OPFace.SupplyExceeded \/ e = OPFace.PaymentNotFound).
Proof.
  intros He. unfold execute, atomic. cbn [dispatch].
  destruct (mint_any bc uri s)
    as [[Hge Hm]|[(Hlt & Hp & Hm)|[(Hlt & Hp & s1 & Hm)|(Hlt & Hp & Hm)]]];
    rewrite Hm in *; cbn [fst snd] in *.
  - apply Throw_inj in He. subst e. auto.
  - apply Throw_inj in He. subst e. auto.
  - apply Throw_inj in He. subst e. split; [|split; [reflexivity|]].
    + intros [H|H].
      * destruct (overflow_not_SupplyExceeded H).
      * destruct (overflow_not_PaymentNotFound H).
    + intros Hr. apply reachable_Inv in Hr.
      destruct (mint_outcome bc uri s Hr) as [_ Hm'| _ _ Hm'| _ _ Hm'];
        rewrite Hm in Hm'; apply (f_equal fst) in Hm'; cbn [fst] in Hm';
        [ | | discriminate Hm']; apply Throw_inj in Hm'; auto.
  - discriminate He.
Qed.

Lemma C5_failed_mint_writes_nothing_witness :
  snd (OPFace.mint short_tx "ipfs://b" deployed) = deployed /\
  snd (execute (CallMint short_tx "ipfs://b") deployed) = deployed.
Proof.
  assert (He : fst (OPFace.mint short_tx "ipfs://b" deployed)
               = Throw OPFace.PaymentNotFound) by (vm_compute; reflexivity).
  destruct (C5_failed_mint_writes_nothing short_tx "ipfs://b" deployed _ He)
    as (Hat & Hkept & _).
  split; [apply Hat; right; reflexivity | exact Hkept].
Defined.

Lemma minterOf_found (id v : Z) (s : Storage) :
  Inv s -> _minterOf s !! id = Some v ->
  OPFace.minterOf id s = (Ok [WU256 v], s).
Proof.
  intros HI Hv. rewrite minterOf_eq.
  assert (Hex : OP721._exists id s = true).
  { apply exists_true. apply (inv_owner s HI), (inv_minterOf s HI). eauto. }
  rewrite Hex. unfold StoredMapU256.get. rewrite Hv. reflexivity.
Qed.

Lemma mintedAt_found (id v : Z) (s : Storage) :
  Inv s -> _mintedAt s !! id = Some v ->
  OPFace.mintedAt id s = (Ok [WU256 v], s).
Proof.
  intros HI Hv. rewrite mintedAt_eq.
  assert (Hex : OP721._exists id s = true).
  { apply exists_true. apply (inv_owner s HI), (inv_mintedAt s HI). eauto. }
  rewrite Hex. unfold StoredMapU256.get. rewrite Hv. reflexivity.
Qed.

(** What a successful mint in a reachable storage establishes, for the
    storage it produces and for every storage reached from there. *)
Lemma minted_provenance
    (bc : Blockchain) (uri : string) (s s' : Storage) (w : BytesWriter)
    (cs : list Call) :
  Inv s ->
  OPFace.mint bc uri s = (Ok w, s') ->
  w = [WU256 (_nextTokenId s)] /\
  Inv (run cs s') /\
  _nextTokenId s <= _totalSupply s' /\
  _minterOf s !! _nextTokenId s = None /\
  _mintedAt s !! _nextTokenId s = None /\
  _minterOf (run cs s') !! _nextTokenId s = Some (tx_sender bc) /\
  _mintedAt (run cs s') !! _nextTokenId s = Some (block_number bc).
Proof.
  intros HI Hm.
  destruct (mint_outcome bc uri s HI) as [_ Hm'| _ _ Hm'|Hlt _ Hm'];
    rewrite Hm' in Hm; try discriminate Hm.
  injection Hm as <- <-.
  pose proof (Inv_after_mint bc uri s HI Hlt) as HI'.
  destruct (after_mint_counters bc uri s HI Hlt) as [Hsup _].
  pose proof (inv_next s HI) as Hn.
  assert (Hid : _nextTokenId s <= _totalSupply (after_mint bc uri s)) by lia.
  destruct (provenance_run cs _ _ HI' Hid) as [Hmo Hma].
  split; [reflexivity|]. split; [apply Inv_run, HI'|]. split; [exact Hid|].
  split; [|split].
  - apply eq_None_not_Some. rewrite (inv_minterOf s HI). lia.
  - apply eq_None_not_Some. rewrite (inv_mintedAt s HI). lia.
  - rewrite Hmo, Hma. unfold after_mint. cbn [_minterOf _mintedAt].
    rewrite !lookup_insert_eq. split; reflexivity.
Qed.

(** C6.  A successful [mint] returns the value [_nextTokenId] had when
    the call started; afterwards, at once and after any further calls,
    [minterOf] of that id returns the sender of the mint and [mintedAt]
    returns the block number of the mint. *)
Theorem C6_mint_returns_and_records
    (bc : Blockchain) (uri : string) (s s' : Storage) (w : BytesWriter) :
  reachable s ->
  OPFace.mint bc uri s = (Ok w, s') ->
  w = [WU256 (_nextTokenId s)] /\
  OPFace.minterOf (_nextTokenId s) s' = (Ok [WU256 (tx_sender bc)], s') /\
  OPFace.mintedAt (_nextTokenId s) s' = (Ok [WU256 (block_number bc)], s') /\
  (forall cs : list Call,
     fst (OPFace.minterOf (_nextTokenId s) (run cs s'))
       = Ok [WU256 (tx_sender bc)] /\
     fst (OPFace.mintedAt (_nextTokenId s) (run cs s'))
       = Ok [WU256 (block_number bc)]).
Proof.
  intros Hr Hm. apply reachable_Inv in Hr.
  assert (Hlater : forall cs : list Call,
    OPFace.minterOf (_nextTokenId s) (run cs s')
      = (Ok [WU256 (tx_sender bc)], run cs s') /\
    OPFace.mintedAt (_nextTokenId s) (run cs s')
      = (Ok [WU256 (block_number bc)], run cs s')).
  { intros cs.
    destruct (minted_provenance bc uri s s' w cs Hr Hm)
      as (_ & HI & _ & _ & _ & Hmo & Hma).
    split; [apply minterOf_found | apply mintedAt_found]; assumption. }
  destruct (minted_provenance bc uri s s' w [] Hr Hm) as (Hw & _).
  destruct (Hlater []) as [Hmo Hma]. cbn [run] in Hmo, Hma.
  split; [exact Hw|]. split; [exact Hmo|]. split; [exact Hma|].
  intros cs. destruct (Hlater cs) as [-> ->]. split; reflexivity.
Qed.

Lemma C6_mint_returns_and_records_witness :
  OPFace.minterOf 1 (after_mint paid_tx "ipfs://a" deployed)
    = (Ok [WU256 alice], after_mint paid_tx "ipfs://a" deployed) /\
  OPFace.mintedAt 1 (after_mint paid_tx "ipfs://a" deployed)
    = (Ok [WU256 1234], after_mint paid_tx "ipfs://a" deployed).
Proof.
  assert (Hm : OPFace.mint paid_tx "ipfs://a" deployed
               = (Ok [WU256 1], after_mint paid_tx "ipfs://a" deployed))
    by (vm_compute; reflexivity).
  destruct (C6_mint_returns_and_records paid_tx "ipfs://a" deployed _ _
              reachable_deployed Hm) as (_ & Hmo & Hma & _).
  split; [exact Hmo | exact Hma].
Defined.

(** C7.  For the id a successful mint returns: neither provenance map
    had an entry for it before that mint, the mint writes both, no later
    sequence of calls (mints, transfers, reads) changes either entry,
    and no later mint returns the same id again. *)
Theorem C7_provenance_written_once
    (bc : Blockchain) (uri : string) (s s' : Storage) (tokenId : Z)
    (cs : list Call) :
  reachable s ->
  OPFace.mint bc uri s = (Ok [WU256 tokenId], s') ->
  (_minterOf s !! tokenId = None /\ _mintedAt s !! tokenId = None) /\
  (_minterOf (run cs s') !! tokenId = Some (OP721._u256FromAddress (tx_sender bc)) /\
   _mintedAt (run cs s') !! tokenId = Some (u256.fromU64 (block_number bc))) /\
  ~ In tokenId (minted cs s').
Proof.
  intros Hr Hm. apply reachable_Inv in Hr.
  destruct (minted_provenance bc uri s s' _ cs Hr Hm)
    as (Hw & _ & Hid & Hno & Hna & Hmo & Hma).
  injection Hw as ->.
  destruct (minted_provenance bc uri s s' _ [] Hr Hm) as (_ & HI' & _).
  cbn [run] in HI'.
  split; [split; assumption|]. split; [split; assumption|].
  rewrite (minted_range cs s' _ HI'). lia.
Qed.

Lemma C7_provenance_written_once_witness :
  _minterOf (run [CallTransfer 5 1; CallMint paid_tx "ipfs://c"]
                 (after_mint paid_tx "ipfs://a" deployed)) !! 1 = Some alice /\
  _mintedAt (run [CallTransfer 5 1; CallMint paid_tx "ipfs://c"]
                 (after_mint paid_tx "ipfs://a" deployed)) !! 1 = Some 1234.
Proof.
  assert (Hm : OPFace.mint paid_tx "ipfs://a" deployed
               = (Ok [WU256 1], after_mint paid_tx "ipfs://a" deployed))
    by (vm_compute; reflexivity).
  destruct (C7_provenance_written_once paid_tx "ipfs://a" deployed _ 1
              [CallTransfer 5 1; CallMint paid_tx "ipfs://c"]
              reachable_deployed Hm) as (_ & Hkept & _).
  exact Hkept.
Defined.

(** *** Queries *)

(** C8.  After any sequence of calls from deployment, for an id that no
    successful mint of the sequence returned, [minterOf] and [mintedAt]
    both revert with TokenNotFound and write nothing; for an id some
    mint returned, both succeed.  Id 0 and every id above the current
    supply are among the ids never minted. *)
Theorem C8_token_not_found (cs : list Call) (id : Z) :
  let s := run cs deployed in
  (~ In id (minted cs deployed) ->
   OPFace.minterOf id s = (Throw (OPFace.TokenNotFound id), s) /\
   OPFace.mintedAt id s = (Throw (OPFace.TokenNotFound id), s)) /\
  (In id (minted cs deployed) ->
   exists minter blockNum,
     OPFace.minterOf id s = (Ok [WU256 minter], s) /\
     OPFace.mintedAt id s = (Ok [WU256 blockNum], s)) /\
  ~ In 0 (minted cs deployed) /\
  (_totalSupply s < id -> ~ In id (minted cs deployed)).
Proof.
  intros s.
  pose proof (Inv_run cs deployed Inv_deployed) as HI. fold s in HI.
  pose proof (fun i => minted_range cs deployed i Inv_deployed) as Hrange.
  change (_totalSupply deployed) with 0 in Hrange. fold s in Hrange.
  split; [|split; [|split]].
  - intros Hnot.
    assert (Hex : OP721._exists id s = false).
    { apply exists_false, eq_None_not_Some.
      rewrite (inv_owner s HI). rewrite Hrange in Hnot. lia. }
    rewrite minterOf_eq, mintedAt_eq, Hex. split; reflexivity.
  - intros Hin. apply Hrange in Hin.
    assert (Hmo : is_Some (_minterOf s !! id)) by (apply (inv_minterOf s HI); lia).
    assert (Hma : is_Some (_mintedAt s !! id)) by (apply (inv_mintedAt s HI); lia).
    destruct Hmo as [minter Hmo]. destruct Hma as [blockNum Hma].
    exists minter, blockNum.
    split; [apply minterOf_found | apply mintedAt_found]; assumption.
  - rewrite Hrange. lia.
  - intros Hgt. rewrite Hrange. lia.
Qed.

Lemma C8_token_not_found_witness :
  OPFace.minterOf 0 (run [CallMint paid_tx "ipfs://a"] deployed)
    = (Throw (OPFace.TokenNotFound 0), run [CallMint paid_tx "ipfs://a"] deployed) /\
  OPFace.mintedAt 2 (run [CallMint paid_tx "ipfs://a"] deployed)
    = (Throw (OPFace.TokenNotFound 2), run [CallMint paid_tx "ipfs://a"] deployed) /\
  exists minter blockNum,
    OPFace.minterOf 1 (run [CallMint paid_tx "ipfs://a"] deployed)
      = (Ok [WU256 minter], run [CallMint paid_tx "ipfs://a"] deployed) /\
    OPFace.mintedAt 1 (run [CallMint paid_tx "ipfs://a"] deployed)
      = (Ok [WU256 blockNum], run [CallMint paid_tx "ipfs://a"] deployed).
Proof.
  assert (Hlist : minted [CallMint paid_tx "ipfs://a"] deployed = [1])
    by (vm_compute; reflexivity).
  destruct (C8_token_not_found [CallMint paid_tx "ipfs://a"] 0) as (H0 & _).
  destruct (C8_token_not_found [CallMint paid_tx "ipfs://a"] 2) as (H2 & _).
  destruct (C8_token_not_found [CallMint paid_tx "ipfs://a"] 1) as (_ & H1 & _).
  split; [|split].
  - apply H0. rewrite Hlist. intros [H|[]]. discriminate H.
  - apply H2. rewrite Hlist. intros [H|[]]. discriminate H.
  - apply H1. rewrite Hlist. left. reflexivity.
Defined.

(** C9.  In every storage, [mintPrice] returns 500000 and [treasury]
    returns the treasury address (its length, then its bytes); both
    leave the storage as it is, so neither result depends on it. *)
Theorem C9_constant_accessors (s : Storage) :
  OPFace.mintPrice s = (Ok [WU256 500000], s) /\
  OPFace.treasury s
    = (Ok [WU32 64;
           WBytes "bcrt1pzcu0e6e04uc5l43fvrr2czh2fxh5my8c08ggnywghw3hchznqdcsr9x2s9"],
       s) /\
  execute CallMintPrice s = (Ok [WU256 500000], s) /\
  execute CallTreasury s = (Ok [WU32 64; WBytes OPFace.TREASURY], s).
Proof. repeat split. Qed.

(** C10.  From one reachable storage and one transaction, two calls to
    [mint] that differ only in the URI end alike: either both revert
    with the same error and write nothing, or both succeed, return the
    same id, and produce storages that differ only in the URI stored for
    that id, which is the string each call was given.  The empty string
    is accepted whenever any string is. *)
Theorem C10_uri_independence
    (bc : Blockchain) (uri1 uri2 : string) (s : Storage) :
  reachable s ->
  ((exists e,
      OPFace.mint bc uri1 s = (Throw e, s) /\
      OPFace.mint bc uri2 s = (Throw e, s))
   \/
   (exists s1 s2,
      OPFace.mint bc uri1 s = (Ok [WU256 (_nextTokenId s)], s1) /\
      OPFace.mint bc uri2 s = (Ok [WU256 (_nextTokenId s)], s2) /\
      s2 = with_tokenURI (_nextTokenId s) uri2 s1 /\
      tokenURIMap s1 !! _nextTokenId s = Some uri1 /\
      tokenURIMap s2 !! _nextTokenId s = Some uri2))
  /\
  ((exists w s1, OPFace.mint bc uri1 s = (Ok w, s1)) ->
   exists s0,
     OPFace.mint bc "" s = (Ok [WU256 (_nextTokenId s)], s0) /\
     tokenURIMap s0 !! _nextTokenId s = Some "").
Proof.
  intros Hr. apply reachable_Inv in Hr.
  destruct (mint_outcome bc uri1 s Hr) as [Hs Hm1|Hlt Hp Hm1|Hlt Hp Hm1].
  - split.
    + left. exists OPFace.SupplyExceeded. split; [exact Hm1|].
      apply mint_sold_out. lia.
    + intros (w & s1 & Hok). rewrite Hm1 in Hok. discriminate Hok.
  - split.
    + left. exists OPFace.PaymentNotFound. split; [exact Hm1|].
      apply mint_unpaid; assumption.
    + intros (w & s1 & Hok). rewrite Hm1 in Hok. discriminate Hok.
  - assert (Hany : forall uri,
      OPFace.mint bc uri s = (Ok [WU256 (_nextTokenId s)], after_mint bc uri s)).
    { intros uri. destruct Hr as [Hs Hn _ _ _].
      apply mint_paid; [lia | assumption | assumption]. }
    split.
    + right. exists (after_mint bc uri1 s), (after_mint bc uri2 s).
      split; [apply Hany|]. split; [apply Hany|].
      unfold after_mint, with_tokenURI. cbn.
      rewrite insert_insert_eq, !lookup_insert_eq. repeat split.
    + intros _. exists (after_mint bc "" s). split; [apply Hany|].
      unfold after_mint. cbn. apply lookup_insert_eq.
Qed.

Lemma C10_uri_independence_witness :
  OPFace.mint paid_tx "" deployed
    = (Ok [WU256 1], with_tokenURI 1 "" (after_mint paid_tx "ipfs://a" deployed)) /\
  OPFace.mint short_tx "" deployed = OPFace.mint short_tx "ipfs://a" deployed.
Proof.
  destruct (C10_uri_independence paid_tx "ipfs://a" "" deployed reachable_deployed)
    as [[(e & He & _)|(s1 & s2 & H1 & H2 & Hs2 & _)] _].
  - assert (Hm : OPFace.mint paid_tx "ipfs://a" deployed
               = (Ok [WU256 1], after_mint paid_tx "ipfs://a" deployed))
      by (vm_compute; reflexivity).
    rewrite Hm in He. discriminate He.
  - assert (Hm : OPFace.mint paid_tx "ipfs://a" deployed
               = (Ok [WU256 1], after_mint paid_tx "ipfs://a" deployed))
      by (vm_compute; reflexivity).
    rewrite Hm in H1. injection H1 as <-. subst s2.
    split; [exact H2|]. vm_compute. reflexivity.
Defined.

(** *** Scenarios *)

(** Deploy, then mint with an output of exactly 500000 to the treasury:
    the call returns 1, the supply is 1, and the provenance queries
    report the sender and the block. *)
Example scenario_first_mint :
  let s1 := snd (execute (CallMint paid_tx "ipfs://a") deployed) in
  fst (execute (CallMint paid_tx "ipfs://a") deployed) = Ok [WU256 1] /\
  _totalSupply s1 = 1 /\
  fst (execute (CallMinterOf 1) s1) = Ok [WU256 alice] /\
  fst (execute (CallMintedAt 1) s1) = Ok [WU256 1234].
Proof. vm_compute. repeat split. Qed.

(** After a hundred mints a paid call reverts and the supply stays 100. *)
Example scenario_sold_out :
  execute (CallMint paid_tx "ipfs://x") sold_out
    = (Throw OPFace.SupplyExceeded, sold_out) /\
  _totalSupply sold_out = 100.
Proof. vm_compute. repeat split. Qed.

(** An output of only 400000 to the treasury: the call reverts and the
    next id is unchanged. *)
Example scenario_short_payment :
  fst (execute (CallMint short_tx "ipfs://b") deployed)
    = Throw OPFace.PaymentNotFound /\
  _nextTokenId (snd (execute (CallMint short_tx "ipfs://b") deployed)) = 1.
Proof. vm_compute. repeat split. Qed.

(** Two outputs of 250000 each do not add up to a payment. *)
Example scenario_outputs_not_summed :
  fst (execute (CallMint
         (mkBlockchain alice
            [mkOutput (Some OPFace.TREASURY) 250000;
             mkOutput (Some OPFace.TREASURY) 250000] 1234)
         "ipfs://b") deployed)
    = Throw OPFace.PaymentNotFound.
Proof. vm_compute. reflexivity. Qed.

(** ** Further properties of the contract *)

(** [mint] looks at the transaction only through its sender, its block
    number and whether some output pays the treasury. *)
Lemma mint_same_payment (bc1 bc2 : Blockchain) (uri : string) (s : Storage) :
  tx_sender bc1 = tx_sender bc2 ->
  block_number bc1 = block_number bc2 ->
  existsb OPFace.pays_treasury (tx_outputs bc1)
    = existsb OPFace.pays_treasury (tx_outputs bc2) ->
  OPFace.mint bc1 uri s = OPFace.mint bc2 uri s.
Proof.
  intros Hsender Hblock Hpay.
  unfold OPFace.mint, bind, gets, throw.
  destruct (u256.fromU32 100 <=? _totalSupply s); [reflexivity|].
  unfold OPFace._requireTreasuryPayment.
  rewrite !scan_outputs_eq, Hpay, Hsender, Hblock. reflexivity.
Qed.

Lemma existsb_Permutation {A} (f : A -> bool) (l1 l2 : list A) :
  Permutation l1 l2 -> existsb f l1 = existsb f l2.
Proof.
  induction 1 as [|x l l' _ IH|x y l|l l' l'' _ IH1 _ IH2]; cbn.
  - reflexivity.
  - rewrite IH. reflexivity.
  - destruct (f x), (f y); reflexivity.
  - congruence.
Qed.

(** X1.  The order of the outputs does not matter: two transactions
    whose outputs are permutations of each other pass or fail the
    payment check alike, and [mint] gives the same result for both. *)
Theorem X1_payment_order_irrelevant
    (sender : Address) (outputs1 outputs2 : list TransactionOutput)
    (blockNumber : Z) (uri : string) (s : Storage) :
  Permutation outputs1 outputs2 ->
  OPFace._requireTreasuryPayment (mkBlockchain sender outputs1 blockNumber) s
    = OPFace._requireTreasuryPayment (mkBlockchain sender outputs2 blockNumber) s /\
  OPFace.mint (mkBlockchain sender outputs1 blockNumber) uri s
    = OPFace.mint (mkBlockchain sender outputs2 blockNumber) uri s.
Proof.
  intros Hperm.
  pose proof (existsb_Permutation OPFace.pays_treasury _ _ Hperm) as Hex.
  split.
  - unfold OPFace._requireTreasuryPayment. cbn [tx_outputs].
    rewrite !scan_outputs_eq, Hex. reflexivity.
  - apply mint_same_payment; [reflexivity | reflexivity | exact Hex].
Qed.

Lemma X1_payment_order_irrelevant_witness :
  OPFace.mint (mkBlockchain alice [short_payment; exact_payment] 1234) "ipfs://a" deployed
    = OPFace.mint (mkBlockchain alice [exact_payment; short_payment] 1234) "ipfs://a" deployed.
Proof.
  apply (X1_payment_order_irrelevant alice [short_payment; exact_payment]
           [exact_payment; short_payment] 1234 "ipfs://a" deployed).
  apply perm_swap.
Defined.

(** X2.  The payment check accepts a concatenation of output lists
    exactly when it accepts one of the two parts; so outputs added in
    front of or behind an accepted list never make it fail. *)
Theorem X2_payment_survives_added_outputs
    (front outputs back : list TransactionOutput) (s : Storage) :
  (OPFace.scan_outputs (front ++ back) s = (Ok tt, s) <->
   OPFace.scan_outputs front s = (Ok tt, s) \/
   OPFace.scan_outputs back s = (Ok tt, s)) /\
  (OPFace.scan_outputs outputs s = (Ok tt, s) ->
   OPFace.scan_outputs (front ++ outputs ++ back) s = (Ok tt, s)).
Proof.
  assert (Hiff : forall l, OPFace.scan_outputs l s = (Ok tt, s) <->
                           existsb OPFace.pays_treasury l = true).
  { intros l. rewrite scan_outputs_eq.
    destruct (existsb OPFace.pays_treasury l); split; congruence. }
  split.
  - rewrite !Hiff, existsb_app, orb_true_iff. reflexivity.
  - rewrite !Hiff, !existsb_app. intros ->.
    rewrite orb_true_r. reflexivity.
Qed.

Lemma X2_payment_survives_added_outputs_witness :
  OPFace.scan_outputs
    ([mkOutput None 7; short_payment] ++ [exact_payment]
       ++ [mkOutput (Some "bcrt1qother") 900000]) deployed
  = (Ok tt, deployed).
Proof.
  apply (X2_payment_survives_added_outputs
           [mkOutput None 7; short_payment] [exact_payment]
           [mkOutput (Some "bcrt1qother") 900000] deployed).
  reflexivity.
Defined.

(** X3.  Only outputs addressed to the treasury count: dropping every
    output whose address is missing or is any other string leaves the
    result of the payment check unchanged, whatever those outputs
    carry. *)
Theorem X3_other_outputs_ignored
    (outputs : list TransactionOutput) (s : Storage) :
  OPFace.scan_outputs outputs s =
  OPFace.scan_outputs
    (filter (fun out => to out = Some OPFace.TREASURY) outputs) s.
Proof.
  rewrite !scan_outputs_eq.
  assert (Hex : existsb OPFace.pays_treasury outputs
                = existsb OPFace.pays_treasury
                    (filter (fun out => to out = Some OPFace.TREASURY) outputs)).
  { induction outputs as [|out rest IH]; [reflexivity|].
    cbn [existsb]. rewrite filter_cons.
    destruct (decide (to out = Some OPFace.TREASURY)) as [Hto|Hto].
    - cbn [existsb]. rewrite IH. reflexivity.
    - rewrite <- IH.
      assert (Hno : OPFace.pays_treasury out = false).
      { apply not_true_iff_false. rewrite pays_treasury_true. tauto. }
      rewrite Hno. reflexivity. }
  rewrite <- Hex. reflexivity.
Qed.

(** X4.  [mint] never looks at who calls it or in which block, to decide:
    from one reachable storage, two transactions with the same outputs
    get the same return value or the same revert, whoever sends them. *)
Theorem X4_mint_open_to_any_sender
    (bc1 bc2 : Blockchain) (uri : string) (s : Storage) :
  reachable s ->
  tx_outputs bc1 = tx_outputs bc2 ->
  fst (OPFace.mint bc1 uri s) = fst (OPFace.mint bc2 uri s).
Proof.
  intros Hr Hout. apply reachable_Inv in Hr.
  destruct (mint_outcome bc1 uri s Hr) as [Hs ->|Hlt Hp ->|Hlt Hp ->];
    cbn [fst].
  - rewrite mint_sold_out by lia. reflexivity.
  - rewrite mint_unpaid; [reflexivity | assumption | congruence].
  - destruct Hr as [Hs Hn _ _ _].
    rewrite mint_paid; [reflexivity | lia | assumption | congruence].
Qed.

Lemma X4_mint_open_to_any_sender_witness :
  fst (OPFace.mint paid_tx "ipfs://a" deployed)
  = fst (OPFace.mint (mkBlockchain 4242 [exact_payment] 99) "ipfs://a" deployed).
Proof.
  apply (X4_mint_open_to_any_sender paid_tx
           (mkBlockchain 4242 [exact_payment] 99) "ipfs://a" deployed
           reachable_deployed).
  reflexivity.
Defined.

Lemma minted_seqZ (cs : list Call) (s : Storage) :
  Inv s ->
  minted cs s = seqZ (_nextTokenId s) (Z.of_nat (successful_mints cs s)).
Proof.
  revert s. induction cs as [|c rest IH]; intros s HI; cbn [minted successful_mints].
  - reflexivity.
  - rewrite (IH _ (Inv_execute c s HI)).
    destruct (execute_step c s HI)
      as [(bc & uri & _ & Hlt & Hex & -> & ->)|([_ Hq _ _ _] & -> & ->)].
    + rewrite Hex. cbn [snd].
      destruct (after_mint_counters bc uri s HI Hlt) as [_ ->].
      rewrite (seqZ_cons (_nextTokenId s)) by lia.
      cbn [app]. f_equal. f_equal; lia.
    + rewrite Hq. cbn [app]. f_equal.
Qed.

(** X5.  Token ids are handed out densely and in order: after any
    sequence of calls from deployment, the ids returned by its successful
    mints are 1, 2, ..., N in that order, N being their number. *)
Theorem X5_ids_dense_in_order (cs : list Call) :
  minted cs deployed = seqZ 1 (Z.of_nat (successful_mints cs deployed)).
Proof. apply (minted_seqZ cs deployed Inv_deployed). Qed.

(** X6.  A successful mint in a reachable storage makes the sender the
    owner of the new id, stores the URI it was given under that id,
    appends exactly one transfer event from the zero address to the
    sender, and leaves the owner, URI and provenance of every other id
    and the collection parameters as they were. *)
Theorem X6_mint_effects
    (bc : Blockchain) (uri : string) (s s' : Storage) (w : BytesWriter) :
  reachable s ->
  OPFace.mint bc uri s = (Ok w, s') ->
  let tokenId := _nextTokenId s in
  ownerOfMap s !! tokenId = None /\
  ownerOfMap s' !! tokenId = Some (tx_sender bc) /\
  tokenURIMap s' !! tokenId = Some uri /\
  events s' = events s ++ [Transfer AddressOps.zero (tx_sender bc) tokenId] /\
  collection s' = collection s /\
  (forall other, other <> tokenId ->
     ownerOfMap s' !! other = ownerOfMap s !! other /\
     tokenURIMap s' !! other = tokenURIMap s !! other /\
     _minterOf s' !! other = _minterOf s !! other /\
     _mintedAt s' !! other = _mintedAt s !! other).
Proof.
  intros Hr Hm tokenId. apply reachable_Inv in Hr.
  destruct (mint_outcome bc uri s Hr) as [_ Hm'| _ _ Hm'|Hlt _ Hm'];
    rewrite Hm' in Hm; try discriminate Hm.
  injection Hm as _ <-. unfold after_mint. fold tokenId.
  cbn [ownerOfMap tokenURIMap events collection _minterOf _mintedAt].
  rewrite !lookup_insert_eq.
  split.
  { apply eq_None_not_Some. rewrite (inv_owner s Hr).
    unfold tokenId. rewrite (inv_next s Hr). lia. }
  repeat (split; [reflexivity|]).
  intros other Hne. rewrite !lookup_insert_ne by congruence.
  repeat split.
Qed.

Lemma X6_mint_effects_witness :
  ownerOfMap (after_mint paid_tx "ipfs://a" deployed) !! 1 = Some alice /\
  tokenURIMap (after_mint paid_tx "ipfs://a" deployed) !! 1 = Some "ipfs://a".
Proof.
  assert (Hm : OPFace.mint paid_tx "ipfs://a" deployed
               = (Ok [WU256 1], after_mint paid_tx "ipfs://a" deployed))
    by (vm_compute; reflexivity).
  destruct (X6_mint_effects paid_tx "ipfs://a" deployed _ _
              reachable_deployed Hm) as (_ & Ho & Hu & _).
  split; [exact Ho | exact Hu].
Defined.

Lemma tokenURI_execute (c : Call) (s : Storage) (id : Z) :
  Inv s -> id <= _totalSupply s ->
  tokenURIMap (snd (execute c s)) !! id = tokenURIMap s !! id.
Proof.
  intros HI Hid.
  destruct (execute_step c s HI)
    as [(bc & uri & _ & Hlt & Hex & _ & _)|([_ _ Hu _ _] & _ & _)].
  - rewrite Hex. unfold after_mint. cbn [snd tokenURIMap].
    rewrite (inv_next s HI). rewrite lookup_insert_ne by lia. reflexivity.
  - rewrite Hu. reflexivity.
Qed.

Lemma tokenURI_run (cs : list Call) (s : Storage) (id : Z) :
  Inv s -> id <= _totalSupply s ->
  tokenURIMap (run cs s) !! id = tokenURIMap s !! id.
Proof.
  revert s. induction cs as [|c rest IH]; intros s HI Hid; cbn [run].
  - reflexivity.
  - rewrite <- (tokenURI_execute c s id HI Hid).
    apply IH; [apply Inv_execute, HI|].
    pose proof (supply_mono [c] s HI) as Hmono. cbn [run] in Hmono. lia.
Qed.

(** X7.  Nothing is ever deleted or rewritten: a token that exists in a
    reachable storage exists after any further sequence of calls, and
    the URI stored for it stays the one it was minted with. *)
Theorem X7_tokens_permanent (cs : list Call) (s : Storage) (tokenId : Z) :
  reachable s ->
  OP721._exists tokenId s = true ->
  OP721._exists tokenId (run cs s) = true /\
  tokenURIMap (run cs s) !! tokenId = tokenURIMap s !! tokenId.
Proof.
  intros Hr Hex. apply reachable_Inv in Hr.
  apply exists_true, (inv_owner s Hr) in Hex.
  pose proof (Inv_run cs s Hr) as HI'.
  pose proof (supply_mono cs s Hr) as Hmono.
  split.
  - apply exists_true, (inv_owner _ HI'). lia.
  - apply tokenURI_run; [assumption | lia].
Qed.

Lemma X7_tokens_permanent_witness :
  OP721._exists 1
    (run [CallTransfer 5 1; CallMint paid_tx "ipfs://c"]
         (run [CallMint paid_tx "ipfs://a"] deployed)) = true /\
  tokenURIMap
    (run [CallTransfer 5 1; CallMint paid_tx "ipfs://c"]
         (run [CallMint paid_tx "ipfs://a"] deployed)) !! 1
  = tokenURIMap (run [CallMint paid_tx "ipfs://a"] deployed) !! 1.
Proof.
  apply (X7_tokens_permanent [CallTransfer 5 1; CallMint paid_tx "ipfs://c"]
           (run [CallMint paid_tx "ipfs://a"] deployed) 1).
  - exists [CallMint paid_tx "ipfs://a"]. reflexivity.
  - vm_compute. reflexivity.
Defined.

(** X8.  In every reachable storage the tokens that exist are exactly
    the ids from 1 to the supply, and exactly these have a minter entry
    and a block entry: no token lacks provenance and no provenance is
    kept for an id that is not a token. *)
Theorem X8_provenance_covers_tokens (s : Storage) (id : Z) :
  reachable s ->
  (OP721._exists id s = true <-> 1 <= id <= _totalSupply s) /\
  (is_Some (_minterOf s !! id) <-> OP721._exists id s = true) /\
  (is_Some (_mintedAt s !! id) <-> OP721._exists id s = true).
Proof.
  intros Hr. apply reachable_Inv in Hr.
  rewrite exists_true, (inv_owner s Hr), (inv_minterOf s Hr), (inv_mintedAt s Hr).
  tauto.
Qed.

Lemma X8_provenance_covers_tokens_witness :
  (OP721._exists 100 sold_out = true <-> 1 <= 100 <= _totalSupply sold_out) /\
  (is_Some (_minterOf sold_out !! 100) <-> OP721._exists 100 sold_out = true) /\
  (is_Some (_mintedAt sold_out !! 100) <-> OP721._exists 100 sold_out = true).
Proof.
  apply (X8_provenance_covers_tokens sold_out 100).
  exists hundred_mints. reflexivity.
Defined.

(** The two trapping additions of a successful mint did not trap. *)
Lemma mint_ok_no_trap
    (bc : Blockchain) (uri : string) (s s' : Storage) (w : BytesWriter) :
  OPFace.mint bc uri s = (Ok w, s') ->
  (u256.add (_totalSupply s) u256.One <? _totalSupply s) = false /\
  (u256.add (_nextTokenId s) u256.One <? _nextTokenId s) = false /\
  w = [WU256 (_nextTokenId s)] /\
  s' = after_mint bc uri s.
Proof.
  unfold OPFace.mint, bind, gets, throw.
  destruct (u256.fromU32 100 <=? _totalSupply s); [discriminate|].
  unfold OPFace._requireTreasuryPayment. rewrite scan_outputs_eq.
  destruct (existsb OPFace.pays_treasury (tx_outputs bc)); [|discriminate].
  unfold OP721._mint, OP721._setTokenURI, SafeMath.add, bind, gets, modify, ret, throw.
  cbn [_totalSupply _nextTokenId with_owner with_totalSupply with_event
       with_tokenURI with_minterOf with_mintedAt with_nextTokenId].
  destruct (u256.add (_totalSupply s) u256.One <? _totalSupply s);
    [discriminate|].
  cbn [_totalSupply _nextTokenId with_owner with_totalSupply with_event
       with_tokenURI with_minterOf with_mintedAt with_nextTokenId
       collection ownerOfMap tokenURIMap events _minterOf _mintedAt].
  destruct (u256.add (_nextTokenId s) u256.One <? _nextTokenId s);
    [discriminate|].
  intros H. injection H as <- <-. repeat split.
Qed.

(** X9.  The counters never wrap around.  In any storage whose counters
    are 256-bit values, reachable or not, a mint that succeeds adds
    exactly 1 to the supply and to the next id and both stay 256-bit
    values; where the next id is the largest 256-bit value, no mint
    succeeds. *)
Theorem X9_counters_never_wrap
    (bc : Blockchain) (uri : string) (s s' : Storage) (w : BytesWriter) :
  0 <= _totalSupply s < u256.modulus ->
  0 <= _nextTokenId s < u256.modulus ->
  OPFace.mint bc uri s = (Ok w, s') ->
  _totalSupply s' = _totalSupply s + 1 /\
  _nextTokenId s' = _nextTokenId s + 1 /\
  _nextTokenId s' < u256.modulus /\
  _nextTokenId s <> u256.modulus - 1.
Proof.
  intros Hs Hn Hm.
  destruct (mint_ok_no_trap bc uri s s' w Hm) as (Hts & Htn & _ & ->).
  unfold after_mint. cbn [_totalSupply _nextTokenId].
  apply Z.ltb_ge in Hts, Htn.
  unfold u256.add, u256.One in *.
  assert (Hm0 : 1 < u256.modulus) by reflexivity.
  assert (Hwrap : forall a, 0 <= a < u256.modulus ->
            a <= (a + 1) mod u256.modulus ->
            (a + 1) mod u256.modulus = a + 1 /\ a + 1 < u256.modulus).
  { intros a Ha Hle.
    destruct (Z.eq_dec a (u256.modulus - 1)) as [->|Hne].
    - replace (u256.modulus - 1 + 1) with u256.modulus in Hle by lia.
      rewrite Z.mod_same in Hle by lia. lia.
    - rewrite Z.mod_small by lia. lia. }
  destruct (Hwrap _ Hs Hts) as [-> _].
  destruct (Hwrap _ Hn Htn) as [-> Hlt].
  repeat split; lia.
Qed.

Lemma X9_counters_never_wrap_witness :
  _totalSupply (after_mint paid_tx "ipfs://a" deployed) = 0 + 1 /\
  _nextTokenId (after_mint paid_tx "ipfs://a" deployed) = 1 + 1.
Proof.
  assert (Hm : OPFace.mint paid_tx "ipfs://a" deployed
               = (Ok [WU256 1], after_mint paid_tx "ipfs://a" deployed))
    by (vm_compute; reflexivity).
  assert (Hs : 0 <= _totalSupply deployed < u256.modulus)
    by (vm_compute; split; [discriminate | reflexivity]).
  assert (Hn : 0 <= _nextTokenId deployed < u256.modulus)
    by (vm_compute; split; [discriminate | reflexivity]).
  destruct (X9_counters_never_wrap paid_tx "ipfs://a" deployed _ _ Hs Hn Hm)
    as (H1 & H2 & _).
  split; [exact H1 | exact H2].
Defined.

(** ** Properties of the web client *)

(** *** Gateway URLs *)

Lemma append_String (a : ascii) (s t : string) :
  String a s +:+ t = String a (s +:+ t).
Proof. reflexivity. Qed.

Lemma append_empty_r (s : string) : s +:+ "" = s.
Proof.
  induction s as [|a s IH]; [reflexivity|].
  rewrite append_String, IH. reflexivity.
Qed.

Lemma append_assoc (s t u : string) : (s +:+ t) +:+ u = s +:+ (t +:+ u).
Proof.
  induction s as [|a s IH]; [reflexivity|].
  rewrite !append_String, IH. reflexivity.
Qed.

Lemma append_inj_l (p s t : string) : p +:+ s = p +:+ t -> s = t.
Proof.
  induction p as [|a p IH]; intros H; [exact H|].
  rewrite !append_String in H. injection H as H. exact (IH H).
Qed.

Lemma length_append (s t : string) :
  String.length (s +:+ t) = (String.length s + String.length t)%nat.
Proof.
  induction s as [|a s IH]; [reflexivity|].
  rewrite append_String. cbn [String.length]. rewrite IH. reflexivity.
Qed.

Lemma startsWith_slice (s prefix : string) :
  JS.startsWith s prefix = true ->
  s = prefix +:+ JS.slice_from (String.length prefix) s.
Proof.
  unfold JS.startsWith. revert s.
  induction prefix as [|a p IH]; intros s Hp; [reflexivity|].
  destruct s as [|b r]; cbn in Hp; [discriminate Hp|].
  destruct (ascii_dec a b) as [->|]; [|discriminate Hp].
  rewrite append_String. cbn [String.length JS.slice_from].
  f_equal. apply IH, Hp.
Qed.

(** X10.  [resolveIPFSUri] is idempotent: resolving a resolved URL
    changes nothing, so a URL may be passed through it any number of
    times. *)
Theorem X10_resolve_idempotent (uri : string) :
  Ipfs.resolveIPFSUri (Ipfs.resolveIPFSUri uri) = Ipfs.resolveIPFSUri uri.
Proof.
  unfold Ipfs.resolveIPFSUri at 2 3.
  destruct (String.eqb uri "") eqn:He; [reflexivity|].
  destruct (JS.startsWith uri "ipfs://") eqn:Hi; [reflexivity|].
  destruct (JS.startsWith uri "http") eqn:Hh; [|reflexivity].
  unfold Ipfs.resolveIPFSUri. rewrite He, Hi, Hh. reflexivity.
Qed.

(** X11.  [resolveIPFSUri] never hands back an [ipfs://] URI: its result
    is the placeholder path or a string that starts with [http]. *)
Theorem X11_resolve_never_ipfs (uri : string) :
  JS.startsWith (Ipfs.resolveIPFSUri uri) "ipfs://" = false /\
  (Ipfs.resolveIPFSUri uri = Ipfs.placeholder \/
   JS.startsWith (Ipfs.resolveIPFSUri uri) "http" = true).
Proof.
  unfold Ipfs.resolveIPFSUri.
  destruct (String.eqb uri "") eqn:He; [split; [reflexivity | left; reflexivity]|].
  destruct (JS.startsWith uri "ipfs://") eqn:Hi;
    [split; [reflexivity | right; reflexivity]|].
  destruct (JS.startsWith uri "http") eqn:Hh.
  - split; [exact Hi | right; exact Hh].
  - split; [reflexivity | left; reflexivity].
Qed.

(** X12.  On [ipfs://] URIs [resolveIPFSUri] is the gateway prefix
    followed by the content id, and it is injective: two different
    [ipfs://] URIs never resolve to the same URL. *)
Theorem X12_resolve_ipfs_injective (uri1 uri2 : string) :
  JS.startsWith uri1 "ipfs://" = true ->
  JS.startsWith uri2 "ipfs://" = true ->
  Ipfs.resolveIPFSUri uri1
    = Ipfs.PINATA_GATEWAY +:+ "/" +:+ JS.slice_from 7 uri1 /\
  (Ipfs.resolveIPFSUri uri1 = Ipfs.resolveIPFSUri uri2 -> uri1 = uri2).
Proof.
  intros H1 H2.
  pose proof (startsWith_slice _ _ H1) as E1.
  pose proof (startsWith_slice _ _ H2) as E2.
  cbn [String.length] in E1, E2.
  assert (R : forall u, JS.startsWith u "ipfs://" = true ->
            Ipfs.resolveIPFSUri u
            = Ipfs.PINATA_GATEWAY +:+ "/" +:+ JS.slice_from 7 u).
  { intros u Hu. unfold Ipfs.resolveIPFSUri. rewrite Hu.
    destruct u; [discriminate Hu | reflexivity]. }
  split; [apply R, H1|].
  rewrite (R _ H1), (R _ H2). intros Heq.
  apply append_inj_l, append_inj_l in Heq.
  rewrite E1, E2, Heq. reflexivity.
Qed.

Lemma X12_resolve_ipfs_injective_witness :
  Ipfs.resolveIPFSUri "ipfs://bafyA"
    = "https://gateway.pinata.cloud/ipfs/bafyA".
Proof.
  apply (X12_resolve_ipfs_injective "ipfs://bafyA" "ipfs://bafyB");
    reflexivity.
Defined.

(** *** Decimal strings *)

Lemma is_digit_not_white (a : ascii) :
  JS.is_digit a = true -> JS.is_white a = false.
Proof.
  unfold JS.is_digit, JS.is_white. cbv zeta.
  rewrite andb_true_iff, !Nat.leb_le. intros [Hlo Hhi].
  apply orb_false_iff. split.
  - apply andb_false_iff. right. apply Nat.leb_gt. lia.
  - apply Nat.eqb_neq. lia.
Qed.

Lemma is_digit_eqb (a c : ascii) :
  JS.is_digit a = true -> JS.is_digit c = false -> Ascii.eqb a c = false.
Proof.
  intros Ha Hc. destruct (Ascii.eqb_spec a c) as [->|]; [congruence | reflexivity].
Qed.

Lemma digit_value_decimal (a : ascii) :
  JS.is_digit a = true ->
  JS.digit_value 10 a = Some (Z.of_nat (nat_of_ascii a) - 48).
Proof.
  unfold JS.is_digit, JS.digit_value. cbv zeta.
  rewrite andb_true_iff, !Nat.leb_le. intros [Hlo Hhi].
  destruct (Z.leb_spec 48 (Z.of_nat (nat_of_ascii a))); [|lia].
  destruct (Z.leb_spec (Z.of_nat (nat_of_ascii a)) 57); [|lia].
  cbn [andb].
  destruct (Z.ltb_spec (Z.of_nat (nat_of_ascii a) - 48) 10); [reflexivity | lia].
Qed.

Lemma pretty_N_char_digit (d : N) : JS.is_digit (pretty_N_char d) = true.
Proof.
  destruct d as [|p]; [reflexivity|].
  repeat (destruct p as [p|p|]; try reflexivity).
Qed.

Lemma pretty_N_char_value (d : N) :
  (d < 10)%N -> JS.digit_value 10 (pretty_N_char d) = Some (Z.of_N d).
Proof.
  intros Hd.
  assert (H : (d = 0 \/ d = 1 \/ d = 2 \/ d = 3 \/ d = 4 \/ d = 5 \/
               d = 6 \/ d = 7 \/ d = 8 \/ d = 9)%N) by lia.
  repeat (destruct H as [->|H]; [reflexivity|]). subst d. reflexivity.
Qed.

Lemma pretty_N_go_app (x : N) (s : string) :
  pretty_N_go x s = pretty_N_go x "" +:+ s.
Proof.
  revert s. induction (N.lt_wf_0 x) as [x _ IH]; intros s.
  destruct (N.eq_dec x 0%N) as [->|Hx]; [rewrite !pretty_N_go_0; reflexivity|].
  assert (Hlt : (x `div` 10 < x)%N) by (apply N.div_lt; lia).
  rewrite (pretty_N_go_step x s), (pretty_N_go_step x "") by lia.
  rewrite (IH _ Hlt (String _ s)), (IH _ Hlt (String _ "")).
  rewrite append_assoc, append_String. reflexivity.
Qed.

Lemma pretty_N_go_snoc (x : N) :
  (0 < x)%N ->
  pretty_N_go x ""
  = pretty_N_go (x `div` 10)%N "" +:+ String (pretty_N_char (x `mod` 10)%N) "".
Proof.
  intros Hx. rewrite pretty_N_go_step by assumption. apply pretty_N_go_app.
Qed.

Lemma parse_digits_app (radix : Z) (a b : string) (acc : Z) :
  JS.parse_digits radix (a +:+ b) acc
  = match JS.parse_digits radix a acc with
    | Some v => JS.parse_digits radix b v
    | None => None
    end.
Proof.
  revert acc. induction a as [|c a IH]; intros acc; [reflexivity|].
  rewrite append_String. cbn [JS.parse_digits].
  destruct (JS.digit_value radix c); [apply IH | reflexivity].
Qed.

Lemma all_digits_app (a b : string) :
  JS.all_digits (a +:+ b) = JS.all_digits a && JS.all_digits b.
Proof.
  induction a as [|c a IH]; [reflexivity|].
  rewrite append_String. cbn [JS.all_digits]. rewrite IH, andb_assoc.
  reflexivity.
Qed.

Lemma parse_pretty_N_go (x : N) :
  JS.parse_digits 10 (pretty_N_go x "") 0 = Some (Z.of_N x).
Proof.
  induction (N.lt_wf_0 x) as [x _ IH].
  destruct (N.eq_dec x 0%N) as [->|Hx]; [reflexivity|].
  rewrite pretty_N_go_snoc, parse_digits_app by lia.
  rewrite IH by (apply N.div_lt; lia).
  cbn [JS.parse_digits].
  rewrite pretty_N_char_value by (apply N.mod_lt; lia).
  f_equal. pose proof (N.div_mod x 10%N). lia.
Qed.

Lemma all_digits_pretty_N_go (x : N) :
  JS.all_digits (pretty_N_go x "") = true.
Proof.
  induction (N.lt_wf_0 x) as [x _ IH].
  destruct (N.eq_dec x 0%N) as [->|Hx]; [reflexivity|].
  rewrite pretty_N_go_snoc, all_digits_app by lia.
  rewrite IH by (apply N.div_lt; lia).
  cbn [JS.all_digits]. rewrite pretty_N_char_digit. reflexivity.
Qed.

Lemma length_pretty_N_go (k : nat) (x : N) :
  (x < 10 ^ N.of_nat k)%N -> (String.length (pretty_N_go x "") <= k)%nat.
Proof.
  revert x. induction k as [|k IH]; intros x Hx.
  - assert (x = 0%N) as -> by (cbn in Hx; lia).
    rewrite pretty_N_go_0. cbn. lia.
  - destruct (N.eq_dec x 0%N) as [->|Hx0];
      [rewrite pretty_N_go_0; cbn; lia|].
    rewrite pretty_N_go_snoc, length_append by lia.
    cbn [String.length].
    assert (Hq : (x `div` 10 < 10 ^ N.of_nat k)%N).
    { apply N.Div0.div_lt_upper_bound.
      rewrite Nat2N.inj_succ, N.pow_succ_r' in Hx. exact Hx. }
    specialize (IH _ Hq). lia.
Qed.

Lemma pretty_N_go_nonempty (x : N) : (0 < x)%N -> pretty_N_go x "" <> "".
Proof.
  intros Hx. rewrite pretty_N_go_snoc by assumption.
  destruct (pretty_N_go (x `div` 10)%N ""); discriminate.
Qed.

Lemma pretty_Z_nonneg (z : Z) :
  0 <= z ->
  pretty z = if decide (z = 0) then "0" else pretty_N_go (Z.to_N z) "".
Proof.
  intros Hz. destruct z as [|p|p]; [reflexivity | | lia].
  rewrite decide_False by discriminate. reflexivity.
Qed.

(** What [toString] of a non-negative [bigint] looks like. *)
Lemma pretty_Z_decimal (z : Z) :
  0 <= z ->
  JS.all_digits (pretty z) = true /\
  pretty z <> "" /\
  JS.parse_digits 10 (pretty z) 0 = Some z.
Proof.
  intros Hz. rewrite pretty_Z_nonneg by assumption.
  destruct (decide (z = 0)) as [->|Hne].
  - repeat split. discriminate.
  - split; [apply all_digits_pretty_N_go|].
    split; [apply pretty_N_go_nonempty; lia|].
    rewrite parse_pretty_N_go. f_equal. lia.
Qed.

Lemma length_pretty_Z (k : nat) (z : Z) :
  0 <= z < 10 ^ Z.of_nat k -> (0 < k)%nat ->
  (String.length (pretty z) <= k)%nat.
Proof.
  intros Hz Hk. rewrite pretty_Z_nonneg by lia.
  destruct (decide (z = 0)) as [->|Hne]; [cbn; lia|].
  apply length_pretty_N_go.
  apply N2Z.inj_lt. rewrite Z2N.id by lia.
  rewrite N2Z.inj_pow, nat_N_Z. cbn. lia.
Qed.

Lemma trimEnd_digits (t : string) :
  JS.all_digits t = true -> JS.trimEnd t = t.
Proof.
  induction t as [|a r IH]; intros Hd; [reflexivity|].
  cbn [JS.all_digits] in Hd. apply andb_true_iff in Hd as [Ha Hr].
  cbn [JS.trimEnd]. rewrite (IH Hr).
  destruct r; [|reflexivity].
  rewrite (is_digit_not_white a Ha). reflexivity.
Qed.

Lemma trimStart_digits (t : string) :
  JS.all_digits t = true -> JS.trimStart t = t.
Proof.
  destruct t as [|a r]; intros Hd; [reflexivity|].
  cbn [JS.all_digits] in Hd. apply andb_true_iff in Hd as [Ha _].
  cbn [JS.trimStart]. rewrite (is_digit_not_white a Ha). reflexivity.
Qed.

(** [BigInt] of a non-empty string of decimal digits reads it in base
    ten, leading zeros included. *)
Lemma BigInt_digits (t : string) :
  JS.all_digits t = true -> t <> "" ->
  JS.BigInt t = JS.parse_digits 10 t 0.
Proof.
  intros Hd Hne. unfold JS.BigInt.
  rewrite (trimStart_digits t Hd), (trimEnd_digits t Hd).
  destruct t as [|a r]; [congruence|].
  cbn [JS.all_digits] in Hd. apply andb_true_iff in Hd as [Ha Hr].
  rewrite (is_digit_eqb a "+" Ha eq_refl), (is_digit_eqb a "-" Ha eq_refl).
  destruct (Ascii.eqb a "0"); [|reflexivity].
  destruct r as [|b r']; [reflexivity|].
  cbn [JS.all_digits] in Hr. apply andb_true_iff in Hr as [Hb _].
  rewrite (is_digit_eqb b "x" Hb eq_refl), (is_digit_eqb b "X" Hb eq_refl),
          (is_digit_eqb b "o" Hb eq_refl), (is_digit_eqb b "O" Hb eq_refl),
          (is_digit_eqb b "b" Hb eq_refl), (is_digit_eqb b "B" Hb eq_refl).
  reflexivity.
Qed.

(** [BigInt] undoes [toString] on non-negative numbers. *)
Lemma BigInt_pretty (z : Z) : 0 <= z -> JS.BigInt (pretty z) = Some z.
Proof.
  intros Hz. destruct (pretty_Z_decimal z Hz) as (Hd & Hne & Hv).
  rewrite BigInt_digits; assumption.
Qed.

Lemma split_digits (s : string) :
  JS.all_digits s = true -> JS.split "." s = [s].
Proof.
  induction s as [|a r IH]; intros Hd; [reflexivity|].
  cbn [JS.all_digits] in Hd. apply andb_true_iff in Hd as [Ha Hr].
  cbn [JS.split]. rewrite (is_digit_eqb a "." Ha eq_refl), (IH Hr).
  reflexivity.
Qed.

Lemma split_digits_dot (w rest : string) :
  JS.all_digits w = true ->
  JS.split "." (w +:+ "." +:+ rest) = w :: JS.split "." rest.
Proof.
  induction w as [|a w IH]; intros Hd; [reflexivity|].
  cbn [JS.all_digits] in Hd. apply andb_true_iff in Hd as [Ha Hw].
  rewrite append_String. cbn [JS.split].
  rewrite (is_digit_eqb a "." Ha eq_refl), (IH Hw). reflexivity.
Qed.

Lemma split_digits_then (f rest : string) :
  JS.all_digits f = true ->
  exists h t, JS.split "." (f +:+ rest) = (f +:+ h) :: t.
Proof.
  induction f as [|a f IH]; intros Hd.
  - destruct (JS.split "." rest) as [|h t] eqn:Hs.
    + destruct rest as [|c rest]; [discriminate Hs|].
      cbn [JS.split] in Hs. destruct (Ascii.eqb c "."); [discriminate Hs|].
      destruct (JS.split "." rest); discriminate Hs.
    + exists h, t. exact Hs.
  - cbn [JS.all_digits] in Hd. apply andb_true_iff in Hd as [Ha Hf].
    destruct (IH Hf) as (h & t & Hs).
    exists h, t. rewrite !append_String. cbn [JS.split].
    rewrite (is_digit_eqb a "." Ha eq_refl), Hs. reflexivity.
Qed.

Lemma slice_to_append (f h : string) :
  JS.slice_to (String.length f) (f +:+ h) = f.
Proof.
  induction f as [|a f IH]; [destruct h; reflexivity|].
  rewrite append_String. cbn [String.length JS.slice_to]. rewrite IH.
  reflexivity.
Qed.

Lemma slice_to_all (f : string) : JS.slice_to (String.length f) f = f.
Proof.
  rewrite <- (append_empty_r f) at 2. apply slice_to_append.
Qed.

Lemma slice_to_length (n : nat) (f h : string) :
  String.length f = n -> JS.slice_to n (f +:+ h) = f.
Proof. intros <-. apply slice_to_append. Qed.

Lemma slice_to_exact (n : nat) (f : string) :
  String.length f = n -> JS.slice_to n f = f.
Proof. intros <-. apply slice_to_all. Qed.

Lemma padEnd_long (n : nat) (a : ascii) (s : string) :
  (n <= String.length s)%nat -> JS.padEnd n a s = s.
Proof.
  intros Hn. unfold JS.padEnd.
  replace (n - String.length s)%nat with 0%nat by lia.
  apply append_empty_r.
Qed.

Lemma length_repeat_char (a : ascii) (n : nat) :
  String.length (JS.repeat_char a n) = n.
Proof. induction n as [|n IH]; cbn; [reflexivity | rewrite IH; reflexivity]. Qed.

Lemma all_digits_zeros (n : nat) :
  JS.all_digits (JS.repeat_char "0" n) = true.
Proof. induction n as [|n IH]; [reflexivity | exact IH]. Qed.

Lemma parse_zeros (n : nat) (acc : Z) :
  JS.parse_digits 10 (JS.repeat_char "0" n) acc = Some (acc * 10 ^ Z.of_nat n).
Proof.
  revert acc. induction n as [|n IH]; intros acc.
  - cbn. f_equal. lia.
  - cbn [JS.repeat_char JS.parse_digits].
    change (JS.digit_value 10 "0") with (Some 0). cbv beta iota.
    rewrite IH, Nat2Z.inj_succ, Z.pow_succ_r by lia. f_equal. lia.
Qed.

Lemma parse_digits_total (s : string) (acc : Z) :
  JS.all_digits s = true ->
  exists v, JS.parse_digits 10 s acc = Some v.
Proof.
  revert acc. induction s as [|a r IH]; intros acc Hd; [eexists; reflexivity|].
  cbn [JS.all_digits] in Hd. apply andb_true_iff in Hd as [Ha Hr].
  cbn [JS.parse_digits]. rewrite (digit_value_decimal a Ha). apply IH, Hr.
Qed.

(** *** Satoshi helpers *)

(** The two parts of what [satToBTC] prints for a positive amount. *)
Lemma satToBTC_parts (sat : Z) :
  0 < sat ->
  let w := pretty (Z.quot sat 100000000) in
  let f := JS.padStart 8 "0" (pretty (Z.rem sat 100000000)) in
  Wallet.satToBTC sat = w +:+ "." +:+ f /\
  JS.all_digits w = true /\ w <> "" /\
  JS.parse_digits 10 w 0 = Some (Z.quot sat 100000000) /\
  JS.all_digits f = true /\ String.length f = 8%nat /\
  JS.parse_digits 10 f 0 = Some (Z.rem sat 100000000).
Proof.
  intros Hsat w f.
  assert (Hq : 0 <= Z.quot sat 100000000) by (apply Z.quot_pos; lia).
  assert (Hr : 0 <= Z.rem sat 100000000 < 100000000)
    by (apply Z.rem_bound_pos; lia).
  destruct (pretty_Z_decimal _ Hq) as (Hwd & Hwne & Hwv).
  destruct (pretty_Z_decimal (Z.rem sat 100000000)) as (Hfd & _ & Hfv); [lia|].
  assert (Hlen : (String.length (pretty (Z.rem sat 100000000)) <= 8)%nat).
  { apply length_pretty_Z; [|lia]. change (10 ^ Z.of_nat 8) with 100000000. lia. }
  split.
  { unfold Wallet.satToBTC. destruct (Z.eqb_spec sat 0); [lia | reflexivity]. }
  repeat (split; [assumption|]).
  unfold f, JS.padStart.
  rewrite all_digits_app, all_digits_zeros, Hfd, length_append, length_repeat_char.
  split; [reflexivity|]. split; [lia|].
  rewrite parse_digits_app, parse_zeros. cbn [Z.mul]. exact Hfv.
Qed.

(** X13.  For a non-negative amount [satToBTC] prints a non-empty run of
    digits, a dot, and exactly eight digits. *)
Theorem X13_satToBTC_format (sat : Z) :
  0 <= sat ->
  exists w f,
    Wallet.satToBTC sat = w +:+ "." +:+ f /\
    JS.all_digits w = true /\ w <> "" /\
    JS.all_digits f = true /\ String.length f = 8%nat.
Proof.
  intros Hsat. destruct (Z.eq_dec sat 0) as [->|Hne].
  - exists "0", "00000000". repeat split. discriminate.
  - destruct (satToBTC_parts sat) as (He & Hwd & Hwne & _ & Hfd & Hfl & _); [lia|].
    eexists _, _. repeat split; eassumption.
Qed.

Lemma X13_satToBTC_format_witness :
  exists w f,
    Wallet.satToBTC 500000 = w +:+ "." +:+ f /\
    JS.all_digits w = true /\ w <> "" /\
    JS.all_digits f = true /\ String.length f = 8%nat.
Proof. apply (X13_satToBTC_format 500000). lia. Defined.

(** X14.  Round trip: parsing what [satToBTC] prints for a non-negative
    amount gives the amount back. *)
Theorem X14_btcToSat_satToBTC (sat : Z) :
  0 <= sat -> Wallet.btcToSat (Wallet.satToBTC sat) = Some sat.
Proof.
  intros Hsat. destruct (Z.eq_dec sat 0) as [->|Hne]; [vm_compute; reflexivity|].
  destruct (satToBTC_parts sat)
    as (-> & Hwd & Hwne & Hwv & Hfd & Hfl & Hfv); [lia|].
  unfold Wallet.btcToSat.
  rewrite (split_digits_dot _ _ Hwd), (split_digits _ Hfd).
  cbn [lookup list_lookup default]. unfold id.
  rewrite padEnd_long by lia.
  rewrite (slice_to_exact 8 _ Hfl).
  rewrite (BigInt_digits _ Hwd Hwne), Hwv.
  rewrite BigInt_digits, Hfv;
    [|assumption | intros E; rewrite E in Hfl; discriminate Hfl].
  f_equal. pose proof (Z.quot_rem' sat 100000000). lia.
Qed.

Lemma X14_btcToSat_satToBTC_witness :
  Wallet.btcToSat (Wallet.satToBTC 123456789) = Some 123456789.
Proof. apply (X14_btcToSat_satToBTC 123456789). lia. Defined.

(** X15.  [btcToSat] drops everything after the eighth decimal: with
    eight digits after the dot, whatever follows them (more digits, or
    any other text) does not change the result; nothing is rounded and
    nothing is rejected. *)
Theorem X15_btcToSat_truncates (w f extra : string) :
  JS.all_digits w = true ->
  JS.all_digits f = true ->
  String.length f = 8%nat ->
  Wallet.btcToSat (w +:+ "." +:+ f +:+ extra)
  = Wallet.btcToSat (w +:+ "." +:+ f).
Proof.
  intros Hwd Hfd Hfl. unfold Wallet.btcToSat.
  rewrite !(split_digits_dot _ _ Hwd), (split_digits _ Hfd).
  destruct (split_digits_then f extra Hfd) as (h & t & ->).
  cbn [lookup list_lookup default]. unfold id.
  rewrite !padEnd_long by (rewrite ?length_append; lia).
  rewrite (slice_to_length 8 f h Hfl), (slice_to_exact 8 f Hfl).
  reflexivity.
Qed.

Lemma X15_btcToSat_truncates_witness :
  Wallet.btcToSat ("0" +:+ "." +:+ "12345678" +:+ "9 and more")
  = Wallet.btcToSat ("0" +:+ "." +:+ "12345678").
Proof.
  apply (X15_btcToSat_truncates "0" "12345678" "9 and more"); reflexivity.
Defined.

(** X16.  On well-formed input [btcToSat] computes the amount: for a
    run of digits [w], a dot and at most eight digits [f], the result is
    the value of [w] times 10^8 plus the value of [f] scaled to eight
    decimals; without a dot it is the value of [w] times 10^8. *)
Theorem X16_btcToSat_value (w f : string) :
  JS.all_digits w = true -> w <> "" ->
  JS.all_digits f = true -> (String.length f <= 8)%nat ->
  exists a b,
    JS.parse_digits 10 w 0 = Some a /\
    JS.parse_digits 10 f 0 = Some b /\
    Wallet.btcToSat (w +:+ "." +:+ f)
      = Some (a * 100000000 + b * 10 ^ Z.of_nat (8 - String.length f)) /\
    Wallet.btcToSat w = Some (a * 100000000).
Proof.
  intros Hwd Hwne Hfd Hfl.
  destruct (parse_digits_total w 0 Hwd) as [a Ha].
  destruct (parse_digits_total f 0 Hfd) as [b Hb].
  exists a, b. split; [exact Ha|]. split; [exact Hb|].
  assert (Hpad : forall g v, JS.all_digits g = true ->
            (String.length g <= 8)%nat ->
            JS.parse_digits 10 g 0 = Some v ->
            JS.BigInt (JS.slice_to 8 (JS.padEnd 8 "0" g))
            = Some (v * 10 ^ Z.of_nat (8 - String.length g))).
  { intros g v Hgd Hgl Hg.
    assert (Hlen : String.length (JS.padEnd 8 "0" g) = 8%nat).
    { unfold JS.padEnd. rewrite length_append, length_repeat_char. lia. }
    rewrite (slice_to_exact 8 _ Hlen).
    rewrite BigInt_digits.
    - unfold JS.padEnd. rewrite parse_digits_app, Hg. apply parse_zeros.
    - unfold JS.padEnd. rewrite all_digits_app, Hgd, all_digits_zeros.
      reflexivity.
    - intros E. rewrite E in Hlen. discriminate Hlen. }
  unfold Wallet.btcToSat. split.
  - rewrite (split_digits_dot _ _ Hwd), (split_digits _ Hfd).
    cbn [lookup list_lookup default]. unfold id.
    rewrite (BigInt_digits _ Hwd Hwne), Ha, (Hpad f b Hfd Hfl Hb).
    reflexivity.
  - rewrite (split_digits _ Hwd).
    cbn [lookup list_lookup default]. unfold id.
    rewrite (BigInt_digits _ Hwd Hwne), Ha.
    rewrite (Hpad "" 0 eq_refl); [f_equal; lia | cbn; lia | reflexivity].
Qed.

Lemma X16_btcToSat_value_witness :
  exists a b,
    JS.parse_digits 10 "12" 0 = Some a /\
    JS.parse_digits 10 "5" 0 = Some b /\
    Wallet.btcToSat ("12" +:+ "." +:+ "5")
      = Some (a * 100000000 + b * 10 ^ Z.of_nat (8 - String.length "5")) /\
    Wallet.btcToSat "12" = Some (a * 100000000).
Proof.
  apply (X16_btcToSat_value "12" "5");
    [reflexivity | discriminate | reflexivity | cbn; lia].
Defined.

(** X21.  A minus sign only reaches the whole part: for [-w.f] with
    digits [w] and at most eight digits [f], [btcToSat] negates the value
    of [w] and then adds the fraction, it does not subtract it; so
    [-0.5] reads as plus half a coin. *)
Theorem X21_btcToSat_sign (w f : string) :
  JS.all_digits w = true -> w <> "" ->
  JS.all_digits f = true -> (String.length f <= 8)%nat ->
  exists a b,
    JS.parse_digits 10 w 0 = Some a /\
    JS.parse_digits 10 f 0 = Some b /\
    Wallet.btcToSat ("-" +:+ w +:+ "." +:+ f)
      = Some (- a * 100000000 + b * 10 ^ Z.of_nat (8 - String.length f)).
Proof.
  intros Hwd Hwne Hfd Hfl.
  destruct (parse_digits_total w 0 Hwd) as [a Ha].
  destruct (parse_digits_total f 0 Hfd) as [b Hb].
  exists a, b. split; [exact Ha|]. split; [exact Hb|].
  assert (Hlen : String.length (JS.padEnd 8 "0" f) = 8%nat).
  { unfold JS.padEnd. rewrite length_append, length_repeat_char. lia. }
  assert (Hfrac : JS.BigInt (JS.slice_to 8 (JS.padEnd 8 "0" f))
                  = Some (b * 10 ^ Z.of_nat (8 - String.length f))).
  { rewrite (slice_to_exact 8 _ Hlen), BigInt_digits.
    - unfold JS.padEnd. rewrite parse_digits_app, Hb. apply parse_zeros.
    - unfold JS.padEnd. rewrite all_digits_app, Hfd, all_digits_zeros.
      reflexivity.
    - intros E. rewrite E in Hlen. discriminate Hlen. }
  assert (Hwhole : JS.BigInt (String "-" w) = Some (- a)).
  { unfold JS.BigInt. cbn [JS.trimStart].
    change (JS.is_white "-") with false. cbv iota.
    cbn [JS.trimEnd]. rewrite (trimEnd_digits w Hwd).
    destruct w as [|c w']; [congruence|].
    change (Ascii.eqb "-" "+") with false.
    change (Ascii.eqb "-" "-") with true. cbv iota.
    unfold JS.parse_number. rewrite Ha. reflexivity. }
  unfold Wallet.btcToSat.
  rewrite append_String. cbn [JS.split].
  change (Ascii.eqb "-" ".") with false. cbv iota.
  change ("" +:+ w +:+ "." +:+ f) with (w +:+ "." +:+ f).
  rewrite (split_digits_dot _ _ Hwd), (split_digits _ Hfd).
  cbn [lookup list_lookup default]. unfold id.
  rewrite Hwhole, Hfrac. reflexivity.
Qed.

Lemma X21_btcToSat_sign_witness :
  Wallet.btcToSat "-0.5" = Some 50000000.
Proof.
  destruct (X21_btcToSat_sign "0" "5") as (a & b & Ha & Hb & Hv);
    [reflexivity | discriminate | reflexivity | cbn; lia |].
  cbn in Ha, Hb. injection Ha as <-. injection Hb as <-.
  exact Hv.
Defined.

(** *** The gallery *)

Lemma ids_loop_spec (id from : Z) (ids : list Z) :
  Client.ids_loop id from ids
  = ids ++ ((fun i => id - i) <$> seqZ 0 (Z.max 0 (id - from + 1))).
Proof.
  funelim (Client.ids_loop id from ids).
  - rewrite H. rewrite <- app_assoc. f_equal.
    replace (Z.max 0 (id - 1 - from + 1)) with (id - from) by lia.
    replace (Z.max 0 (id - from + 1)) with (id - from + 1) by lia.
    rewrite (seqZ_cons 0 (id - from + 1)) by lia.
    cbn [fmap list_fmap app]. rewrite Z.sub_0_r. f_equal.
    replace (Z.pred (id - from + 1)) with (id - from) by lia.
    change (Z.succ 0) with (1 + 0).
    rewrite <- (fmap_add_seqZ 1 0), <- list_fmap_compose.
    apply list_fmap_ext. intros _ i _. cbn. lia.
  - rewrite seqZ_nil by lia. cbn. rewrite app_nil_r. reflexivity.
Qed.

Lemma fetchGallery_ids_eq (supply count : Z) :
  Client.fetchGallery_ids supply count
  = (fun i => supply - i) <$> seqZ 0 (Z.max 0 (Z.min supply count)).
Proof.
  unfold Client.fetchGallery_ids.
  destruct (Z.eqb_spec supply 0) as [->|Hne].
  - rewrite seqZ_nil by lia. reflexivity.
  - rewrite ids_loop_spec. cbn [app]. f_equal. f_equal.
    destruct (Z.gtb_spec supply count); lia.
Qed.

(** X17.  The ids [fetchGallery] asks for are the newest ones, newest
    first: [supply], [supply - 1], ... , as many as the smaller of the
    supply and the count, and none when either is zero or less. *)
Theorem X17_gallery_ids (supply count : Z) :
  Client.fetchGallery_ids supply count
    = (fun i => supply - i) <$> seqZ 0 (Z.max 0 (Z.min supply count)) /\
  length (Client.fetchGallery_ids supply count)
    = Z.to_nat (Z.min supply count).
Proof.
  rewrite fetchGallery_ids_eq. split; [reflexivity|].
  rewrite length_fmap, length_seqZ. lia.
Qed.

(** X18.  The gallery only asks for tokens that exist: when the supply
    it was given is the supply of a reachable storage, every id in its
    list lies between 1 and the supply, and [minterOf] and [mintedAt]
    succeed for it in that storage. *)
Theorem X18_gallery_ids_exist (s : Storage) (count id : Z) :
  reachable s ->
  In id (Client.fetchGallery_ids (_totalSupply s) count) ->
  1 <= id <= _totalSupply s /\
  OP721._exists id s = true /\
  exists minter blockNum,
    OPFace.minterOf id s = (Ok [WU256 minter], s) /\
    OPFace.mintedAt id s = (Ok [WU256 blockNum], s).
Proof.
  intros Hr Hin. apply reachable_Inv in Hr.
  rewrite fetchGallery_ids_eq in Hin.
  assert (Hid : 1 <= id <= _totalSupply s).
  { apply list_elem_of_In, list_elem_of_fmap in Hin as (i & -> & Hi).
    apply elem_of_seqZ in Hi. lia. }
  split; [exact Hid|].
  split; [apply exists_true, (inv_owner s Hr), Hid|].
  destruct (proj2 (inv_minterOf s Hr id) Hid) as [minter Hmo].
  destruct (proj2 (inv_mintedAt s Hr id) Hid) as [blockNum Hma].
  exists minter, blockNum.
  split; [apply minterOf_found | apply mintedAt_found]; assumption.
Qed.

Lemma X18_gallery_ids_exist_witness :
  1 <= 1 <= _totalSupply (run [CallMint paid_tx "ipfs://a"] deployed) /\
  OP721._exists 1 (run [CallMint paid_tx "ipfs://a"] deployed) = true /\
  exists minter blockNum,
    OPFace.minterOf 1 (run [CallMint paid_tx "ipfs://a"] deployed)
      = (Ok [WU256 minter], run [CallMint paid_tx "ipfs://a"] deployed) /\
    OPFace.mintedAt 1 (run [CallMint paid_tx "ipfs://a"] deployed)
      = (Ok [WU256 blockNum], run [CallMint paid_tx "ipfs://a"] deployed).
Proof.
  apply (X18_gallery_ids_exist
           (run [CallMint paid_tx "ipfs://a"] deployed) 20 1).
  - exists [CallMint paid_tx "ipfs://a"]. reflexivity.
  - vm_compute. left. reflexivity.
Defined.

(** *** The mint form and the token page *)

(** X19.  The form and the contract agree when the form's supply is the
    current one of a reachable storage.  If the checks of [handleMint]
    pass, a transaction that pays the treasury mints, and the id it gets
    is the tentative id the form wrote into the metadata; if the form
    reports the collection as sold out, every mint reverts with
    SupplyExceeded. *)
Theorem X19_form_agrees_with_contract
    (s : Storage) (walletAddress : option string) (file provider : bool) :
  reachable s ->
  (MintForm.handleMint_guard walletAddress file (_totalSupply s) provider = None ->
   forall bc uri,
     existsb OPFace.pays_treasury (tx_outputs bc) = true ->
     OPFace.mint bc uri s
     = (Ok [WU256 (MintForm.tentativeTokenId (_totalSupply s))],
        after_mint bc uri s)) /\
  (MintForm.isSoldOut (_totalSupply s) = true ->
   forall bc uri,
     OPFace.mint bc uri s = (Throw OPFace.SupplyExceeded, s)).
Proof.
  intros Hr. apply reachable_Inv in Hr. destruct Hr as [Hs Hn _ _ _].
  unfold MintForm.handleMint_guard, MintForm.isSoldOut, MintForm.tentativeTokenId.
  split.
  - intros Hguard bc uri Hp.
    destruct (Z.leb_spec 100 (_totalSupply s)) as [Hge|Hlt].
    + destruct walletAddress as [[|a r]|]; try discriminate Hguard.
      destruct file; discriminate Hguard.
    + rewrite <- Hn. apply mint_paid; [lia | assumption | assumption].
  - intros Hsold bc uri. apply Z.leb_le in Hsold.
    apply mint_sold_out. exact Hsold.
Qed.

Lemma X19_form_agrees_with_contract_witness :
  OPFace.mint paid_tx "ipfs://a" deployed
    = (Ok [WU256 (MintForm.tentativeTokenId 0)],
       after_mint paid_tx "ipfs://a" deployed) /\
  OPFace.mint paid_tx "ipfs://x" sold_out
    = (Throw OPFace.SupplyExceeded, sold_out).
Proof.
  destruct (X19_form_agrees_with_contract deployed (Some "bcrt1qminter") true true
              reachable_deployed) as [Hgo _].
  destruct (X19_form_agrees_with_contract sold_out None false false)
    as [_ Hstop]; [exists hundred_mints; reflexivity|].
  split.
  - apply (Hgo eq_refl paid_tx "ipfs://a"). reflexivity.
  - apply Hstop. vm_compute. reflexivity.
Defined.

Lemma route_pretty (id : Z) :
  0 <= id ->
  TokenPage.route (pretty id)
  = if (1 <=? id) && (id <=? 100) then TokenPage.Fetch id
    else TokenPage.NotFound.
Proof.
  intros Hid. unfold TokenPage.route.
  destruct (pretty_Z_decimal id Hid) as (_ & Hne & _).
  destruct (String.eqb_spec (pretty id) "") as [E|_]; [congruence|].
  rewrite (BigInt_pretty id Hid).
  destruct (Z.leb_spec id 0), (Z.gtb_spec id 100),
           (Z.leb_spec 1 id), (Z.leb_spec id 100);
    cbn [orb andb]; try reflexivity; lia.
Qed.

(** X20.  Every token the contract has minted has a page: for an id
    returned by a successful mint, the token page reached through the
    id's decimal form passes the range guard and fetches that very id;
    ids above 100 and id 0 are turned away. *)
Theorem X20_minted_ids_have_a_page (cs : list Call) (id : Z) :
  (In id (minted cs deployed) ->
   TokenPage.route (pretty id) = TokenPage.Fetch id) /\
  (100 < id -> TokenPage.route (pretty id) = TokenPage.NotFound) /\
  TokenPage.route (pretty 0) = TokenPage.NotFound /\
  TokenPage.route "" = TokenPage.NotFound.
Proof.
  split; [|split; [|split; reflexivity]].
  - intros Hin.
    apply (minted_range cs deployed id Inv_deployed) in Hin.
    change (_totalSupply deployed) with 0 in Hin.
    pose proof (inv_supply _ (Inv_run cs deployed Inv_deployed)) as Hcap.
    rewrite route_pretty by lia.
    destruct (Z.leb_spec 1 id), (Z.leb_spec id 100);
      cbn [andb]; try reflexivity; lia.
  - intros Hbig. rewrite route_pretty by lia.
    destruct (Z.leb_spec 1 id), (Z.leb_spec id 100);
      cbn [andb]; try reflexivity; lia.
Qed.

Lemma X20_minted_ids_have_a_page_witness :
  TokenPage.route (pretty 1) = TokenPage.Fetch 1.
Proof.
  destruct (X20_minted_ids_have_a_page [CallMint paid_tx "ipfs://a"] 1)
    as [Hpage _].
  apply Hpage. vm_compute. left. reflexivity.
Defined.
